(** * pixels-stats: the computational core of [plot.py]

    A shallow embedding of the mood-journal script: record parsing
    ([Mood.from_dict]), the three fixed-window smoothers ([smooth_moods],
    [smooth_note_len], [smooth_ints]), the monthly aggregation and the
    rankings behind the bar charts, and the keyword counter.  The calls into
    matplotlib/seaborn only draw; each [plot_*] function is modelled by the
    series it hands to the drawing call.

    Conventions.
    - Python [int] is [Z].  A Python [float] is represented by an exact
      rational ([Float q], with [q] in lowest terms): [a / b] on integers is
      the exact quotient, where CPython returns the double nearest to it.
      Rounding to the nearest double is monotone, so an order between exact
      means is an order between the doubles; the values of the worked
      examples (1, 3, 4, 5/2) are doubles themselves.
    - A raised exception is a value [Raise e]; sequencing stops at the first
      one, as an uncaught exception does.
    - [str] is [string]; case folding is the ASCII one. *)

From Stdlib Require Import ZArith QArith Qreduction Sorting Permutation Ascii String Lia Lqa.
From stdpp Require Import base option list sorting gmap sets strings.

Local Open Scope Z_scope.
Local Set Warnings "-register-all".

(** ** Exceptions and results *)

Inductive exn :=
| ZeroDivisionError
| ValueError
| TypeError
| IndexError
| KeyError
| AttributeError
| OverflowError.

Inductive result (A : Type) :=
| Ok (a : A)
| Raise (e : exn).
Arguments Ok {A} a.
Arguments Raise {A} e.

Definition bind {A B} (k : A -> result B) (r : result A) : result B :=
  match r with
  | Ok a => k a
  | Raise e => Raise e
  end.

#[global] Instance result_bind : MBind result := @bind.
#[global] Instance result_ret : MRet result := @Ok.

(** A loop body run over a list from left to right, collecting the values;
    the first exception aborts the loop. *)
Fixpoint for_each {A B} (f : A -> result B) (l : list A) : result (list B) :=
  match l with
  | [] => Ok []
  | x :: xs => y ← f x; ys ← for_each f xs; Ok (y :: ys)
  end.

(** ** Numbers *)

Inductive num :=
| Int (z : Z)
| Float (q : Q).

Definition num_val (x : num) : Q :=
  match x with
  | Int z => inject_Z z
  | Float q => q
  end.

(** [a + b]: integer when both are, float otherwise. *)
Definition num_add (a b : num) : num :=
  match a, b with
  | Int x, Int y => Int (x + y)
  | _, _ => Float (Qred (num_val a + num_val b))
  end.

(** [sum(xs)]: starts from the integer 0 and adds from the left. *)
Definition py_sum (xs : list num) : num := fold_left num_add xs (Int 0).

(** [a / b], true division. *)
Definition truediv (a b : num) : result num :=
  if Qeq_bool (num_val b) 0 then Raise ZeroDivisionError
  else Ok (Float (Qred (num_val a / num_val b))).

(** ** Sequences *)

Definition len {A} (l : list A) : Z := Z.of_nat (length l).

(** [range(n)] *)
Definition range (n : Z) : list Z := map Z.of_nat (seq 0 (Z.to_nat n)).

(** A slice bound brought into [0, n]: a negative bound counts from the end. *)
Definition clamp_index (n i : Z) : Z :=
  if i <? 0 then Z.max 0 (i + n) else Z.min i n.

(** [l[start:stop]] *)
Definition slice {A} (l : list A) (start stop : Z) : list A :=
  let n := len l in
  let lo := clamp_index n start in
  let hi := clamp_index n stop in
  take (Z.to_nat (hi - lo)) (drop (Z.to_nat lo) l).

(** [l[i]] for the indices the loops use (never negative). *)
Definition index {A} (l : list A) (i : Z) : result A :=
  if i <? 0 then Raise IndexError
  else match l !! Z.to_nat i with
       | Some x => Ok x
       | None => Raise IndexError
       end.

(** ** Entries *)

Record datetime := mkDate { year : Z; month : Z; day : Z }.

(** The dataclass [Mood].  Its annotations are not enforced when an instance
    is built, so the text fields carry whatever the record held: [V] is
    [json] for a freshly parsed entry and [string] where the code needs
    text. *)
Record Mood (V : Type) := mkMood {
  type : V;
  date : datetime;
  score : num;
  notes : V
}.
Arguments mkMood {V} _ _ _ _.
Arguments type {V} _.
Arguments date {V} _.
Arguments score {V} _.
Arguments notes {V} _.

(** ** Fixed-window smoothing *)

Definition window_start (i window_size : Z) : Z := Z.max 0 (i - window_size).
Definition window_end (n i window_size : Z) : Z := Z.min n (i + window_size).

(** The slice every smoother takes at index [i]. *)
Definition window {A} (l : list A) (i window_size : Z) : list A :=
  slice l (window_start i window_size) (window_end (len l) i window_size).

(** One turn of the loop of [smooth_moods]: the entry appended at index [i]. *)
Definition smooth_at {V} (moods : list (Mood V)) (window_size : Z) (i : Z)
  : result (Mood V) :=
  let w := window moods i window_size in
  s ← truediv (py_sum (map score w)) (Int (len w));
  m ← index moods i;
  Ok {| type := type m; date := date m; score := s; notes := notes m |}.

Definition smooth_moods {V} (moods : list (Mood V)) (window_size : Z)
  : result (list (Mood V)) :=
  for_each (smooth_at moods window_size) (range (len moods)).

Definition str_len (s : string) : Z := Z.of_nat (String.length s).

Definition smooth_note_len (moods : list (Mood string)) (window_size : Z)
  : result (list (datetime * num)) :=
  for_each (fun i =>
          let w := window moods i window_size in
          note_len ← truediv (py_sum (map (fun m => Int (str_len (notes m))) w))
                              (Int (len w));
          m ← index moods i;
          Ok (date m, note_len))
       (range (len moods)).

Definition smooth_ints (ints : list Z) (window_size : Z) : result (list num) :=
  for_each (fun i =>
          let w := window ints i window_size in
          truediv (py_sum (map Int w)) (Int (len w)))
       (range (len ints)).

(** The series drawn by [plot_mood_in_time] and [plot_note_len_in_time]. *)
Definition plot_mood_in_time {V} (moods : list (Mood V)) : result (list (Mood V)) :=
  smooth_moods moods 60.

Definition plot_note_len_in_time (moods : list (Mood string))
  : result (list (datetime * num)) :=
  smooth_note_len moods 14.

(** [avg(iterable, key)] *)
Definition avg {A} (iterable : list A) (key : A -> num) : result num :=
  truediv (py_sum (map key iterable)) (Int (len iterable)).

(** ** Raw records

    What [json.loads] yields.  [JNull] is Python's [None]; an object keeps
    its items in the order of the text and a repeated key reads as its last
    binding, as the built dictionary does. *)

Inductive json :=
| JNull
| JBool (b : bool)
| JInt (z : Z)
| JFloat (q : Q)
| JNaN
| JInf (negative : bool)
| JStr (s : string)
| JList (l : list json)
| JObj (items : list (string * json)).

(** [data.get(key)]: the value bound to [key], [None] when there is none. *)
Definition dict_get (items : list (string * json)) (key : string) : json :=
  fold_left (fun found kv => if String.eqb (fst kv) key then snd kv else found)
            items JNull.

(** [x[0]] *)
Definition subscript0 (x : json) : result json :=
  match x with
  | JList [] => Raise IndexError
  | JList (y :: _) => Ok y
  | JStr EmptyString => Raise IndexError
  | JStr (String c _) => Ok (JStr (String c EmptyString))
  | JObj _ => Raise KeyError
  | _ => Raise TypeError
  end.

Definition is_digit (c : ascii) : bool :=
  let n := nat_of_ascii c in (48 <=? n)%nat && (n <=? 57)%nat.

Definition digit_val (c : ascii) : Z := Z.of_nat (nat_of_ascii c) - 48.

(** The blanks [int] strips from both ends of ASCII text: the space and the
    characters 9 to 13. *)
Definition is_space (c : ascii) : bool :=
  let n := nat_of_ascii c in
  (n =? 32)%nat || ((9 <=? n)%nat && (n <=? 13)%nat).

Fixpoint lstrip (cs : list ascii) : list ascii :=
  match cs with
  | c :: cs' => if is_space c then lstrip cs' else cs
  | [] => []
  end.

Definition strip (cs : list ascii) : list ascii := rev (lstrip (rev (lstrip cs))).

(** Decimal digits, single underscores allowed between two digits. *)
Fixpoint int_digits (acc : Z) (after_digit : bool) (cs : list ascii) : option Z :=
  match cs with
  | [] => if after_digit then Some acc else None
  | c :: cs' =>
      if is_digit c then int_digits (10 * acc + digit_val c) true cs'
      else if Ascii.eqb c "_" && after_digit then int_digits acc false cs'
      else None
  end.

Definition int_of_str (s : string) : result Z :=
  let body := strip (list_ascii_of_string s) in
  let parsed :=
    match body with
    | "-"%char :: ds => Z.opp <$> int_digits 0 false ds
    | "+"%char :: ds => int_digits 0 false ds
    | ds => int_digits 0 false ds
    end in
  match parsed with
  | Some z => Ok z
  | None => Raise ValueError
  end.

(** [int(x)] *)
Definition py_int (x : json) : result Z :=
  match x with
  | JInt z => Ok z
  | JBool b => Ok (if b then 1 else 0)
  | JFloat q => Ok (Z.quot (Qnum q) (Zpos (Qden q)))
  | JNaN => Raise ValueError
  | JInf _ => Raise OverflowError
  | JStr s => int_of_str s
  | JNull | JList _ | JObj _ => Raise TypeError
  end.

(** *** [datetime.strptime(_, "%Y-%m-%d")]

    CPython turns the format into a pattern, one alternation per directive:
    four digits for [%Y], [1[0-2]|0[1-9]|[1-9]] for [%m] and
    [3[0-1]|[1-2]\d|0[1-9]|[1-9]| [1-9]] for [%d], with the dashes in between.
    The pattern has to match at the start of the text and to use all of it;
    the date is then built by the constructor, which checks the calendar.
    Every failure is a [ValueError]; an argument that is not text is a
    [TypeError]. *)

Definition is_leap (y : Z) : bool :=
  (y mod 4 =? 0) && (negb (y mod 100 =? 0) || (y mod 400 =? 0)).

Definition days_in_month (y m : Z) : Z :=
  if m =? 2 then (if is_leap y then 29 else 28)
  else if (m =? 4) || (m =? 6) || (m =? 9) || (m =? 11) then 30
  else 31.

(** The constructor's range checks. *)
Definition make_date (y m dd : Z) : result datetime :=
  if (1 <=? y) && (y <=? 9999) && (1 <=? m) && (m <=? 12)
     && (1 <=? dd) && (dd <=? days_in_month y m)
  then Ok (mkDate y m dd) else Raise ValueError.

(** [%Y]: exactly four digits. *)
Definition year_field (cs : list ascii) : option (Z * list ascii) :=
  match cs with
  | a :: b :: c :: e :: rest =>
      if is_digit a && is_digit b && is_digit c && is_digit e
      then Some (1000 * digit_val a + 100 * digit_val b + 10 * digit_val c + digit_val e, rest)
      else None
  | _ => None
  end.

(** [%m] and the dash after it: [1[0-2]], [0[1-9]] or [[1-9]]. *)
Definition month_field (cs : list ascii) : option (Z * list ascii) :=
  match cs with
  | a :: b :: rest =>
      if Ascii.eqb b "-" then
        if is_digit a && negb (Ascii.eqb a "0") then Some (digit_val a, rest) else None
      else
        match rest with
        | c :: rest' =>
            if negb (Ascii.eqb c "-") then None
            else if Ascii.eqb a "1" && is_digit b && (digit_val b <=? 2)
                 then Some (10 + digit_val b, rest')
            else if Ascii.eqb a "0" && is_digit b && negb (Ascii.eqb b "0")
                 then Some (digit_val b, rest')
            else None
        | [] => None
        end
  | _ => None
  end.

(** [%d] up to the end of the text: [3[0-1]], [[1-2]\d], [0[1-9]], [[1-9]]
    or a blank and [[1-9]]. *)
Definition day_field (cs : list ascii) : option Z :=
  match cs with
  | [a] => if is_digit a && negb (Ascii.eqb a "0") then Some (digit_val a) else None
  | [a; b] =>
      if Ascii.eqb a "3" && is_digit b && (digit_val b <=? 1) then Some (30 + digit_val b)
      else if (Ascii.eqb a "1" || Ascii.eqb a "2") && is_digit b
           then Some (10 * digit_val a + digit_val b)
      else if (Ascii.eqb a "0" || Ascii.eqb a " ") && is_digit b && negb (Ascii.eqb b "0")
           then Some (digit_val b)
      else None
  | _ => None
  end.

Definition parse_ymd (s : string) : option (Z * Z * Z) :=
  match year_field (list_ascii_of_string s) with
  | Some (y, c :: rest) =>
      if negb (Ascii.eqb c "-") then None
      else match month_field rest with
           | Some (m, rest') =>
               match day_field rest' with
               | Some dd => Some (y, m, dd)
               | None => None
               end
           | None => None
           end
  | _ => None
  end.


Definition strptime (x : json) : result datetime :=
  match x with
  | JStr s =>
      match parse_ymd s with
      | Some (y, m, dd) => make_date y m dd
      | None => Raise ValueError
      end
  | _ => Raise TypeError
  end.

(** *** [Mood.from_dict] *)

Definition from_dict (data : json) : result (Mood json) :=
  match data with
  | JObj items =>
      let t := dict_get items "type" in
      dt ← strptime (dict_get items "date");
      first ← subscript0 (dict_get items "scores");
      s ← py_int first;
      Ok {| type := t; date := dt; score := Int s; notes := dict_get items "notes" |}
  | _ => Raise AttributeError
  end.

(** The comprehension [[Mood.from_dict(x) for x in records]]. *)
Definition load_moods (records : list json) : result (list (Mood json)) :=
  for_each from_dict records.

(** ** The pipeline steps of [functional.seq]

    [group_by] fills a dictionary in one pass: a key is created when first
    met and later elements are appended to its list, so groups come out in
    the order their keys were discovered.  [sorted] is Python's stable sort,
    [take] keeps the first [n] elements (none for [n <= 0]). *)

Section Pipeline.
Context {A K : Type} `{EqDecision K}.

Fixpoint group_add (k : K) (x : A) (groups : list (K * list A)) : list (K * list A) :=
  match groups with
  | [] => [(k, [x])]
  | (k', g) :: rest =>
      if decide (k = k') then (k', g ++ [x]) :: rest
      else (k', g) :: group_add k x rest
  end.

Definition group_by (key : A -> K) (l : list A) : list (K * list A) :=
  fold_left (fun groups x => group_add (key x) x groups) l [].

(** [before a b] says that key [a] may stand before key [b]. *)
Fixpoint insert_by (before : K -> K -> bool) (key : A -> K) (x : A) (l : list A) : list A :=
  match l with
  | [] => [x]
  | y :: ys =>
      if before (key x) (key y) then x :: y :: ys
      else y :: insert_by before key x ys
  end.

(** Stable: an element is placed in front of the elements that followed it
    in the input and whose key does not have to come first. *)
Definition sorted (before : K -> K -> bool) (key : A -> K) (l : list A) : list A :=
  foldr (insert_by before key) [] l.
End Pipeline.

(** [take(n)] *)
Definition seq_take {A} (n : Z) (l : list A) : list A := take (Z.to_nat n) l.

(** Comparison of sort keys. *)
Definition num_le (a b : num) : bool := Qle_bool (num_val a) (num_val b).
Definition num_ge (a b : num) : bool := num_le b a.

(** ** Monthly ranking *)

Definition month_key {V} (m : Mood V) : Z * Z := (year (date m), month (date m)).

(** The groups with their mean score: the pipeline up to [sorted]. *)
Definition monthly_means {V} (moods : list (Mood V)) : result (list ((Z * Z) * num)) :=
  for_each (fun x => a ← avg (snd x) score; Ok (fst x, a)) (group_by month_key moods).

Definition plot_top_moods {V} (moods : list (Mood V)) (n : Z)
  : result (list ((Z * Z) * num)) :=
  means ← monthly_means moods;
  Ok (seq_take n (sorted num_ge snd means)).

Definition plot_worst_moods {V} (moods : list (Mood V)) (n : Z)
  : result (list ((Z * Z) * num)) :=
  means ← monthly_means moods;
  Ok (seq_take n (sorted num_le snd means)).

(** ** Longest notes *)

Definition note_len (m : Mood string) : Z := str_len (notes m).

Definition plot_top_longest_notes (moods : list (Mood string)) (n : Z) : list (Mood string) :=
  seq_take n (sorted Z.geb note_len moods).

(** ** Keyword occurrences *)

Definition lower_char (c : ascii) : ascii :=
  let n := nat_of_ascii c in
  if (65 <=? n)%nat && (n <=? 90)%nat then ascii_of_nat (n + 32) else c.

Fixpoint lower (s : string) : string :=
  match s with
  | EmptyString => EmptyString
  | String c s' => String (lower_char c) (lower s')
  end.

Fixpoint starts_with (s w : string) : bool :=
  match w, s with
  | EmptyString, _ => true
  | String _ _, EmptyString => false
  | String a w', String b s' => Ascii.eqb a b && starts_with s' w'
  end.

(** [w in s] on text: [w] occurs in [s] as a contiguous run. *)
Fixpoint contains (s w : string) : bool :=
  starts_with s w ||
  match s with
  | EmptyString => false
  | String _ s' => contains s' w
  end.

(** [set([word.lower() for word in words])] *)
Definition lower_words (words : gset string) : gset string := set_map lower words.

(** [sum([1 for word in words if word in note.lower()])], [words] already
    lowered. *)
Definition count_words (words : gset string) (note : string) : Z :=
  len (filter (fun w => contains (lower note) w = true) (elements words)).

(** [w] occurs in [s]: some text before it and some text after it make [s]. *)
Definition occurs_in (w s : string) : Prop :=
  exists a b : string, s = String.append a (String.append w b).

(** The count as the specification words it: the target words, as given,
    that occur in the note when case is ignored. *)
Definition words_occurring (words : gset string) (note : string) : Z :=
  len (filter (fun w => contains (lower note) (lower w) = true) (elements words)).

(** The two series drawn by [plot_days_containing_words]: the dates and the
    smoothed counts. *)
Definition plot_days_containing_words (moods : list (Mood string)) (words : gset string)
  : result (list datetime * list num) :=
  let words := lower_words words in
  let word_count := map (fun x => (date x, count_words words (notes x))) moods in
  smoothed_word_count ← smooth_ints (map snd word_count) 14;
  Ok (map fst word_count, smoothed_word_count).

(** ** [smooth_moods] on the object store

    Python lists and dataclass instances are mutable objects reached through
    references.  The store is the sequence of objects allocated so far, a
    reference is a position in it, and a new object goes to the end.
    [smooth_moods] reads the list it is given and the entries in it, builds a
    new list and appends one new [Mood] per index. *)

Definition loc := nat.

Inductive obj (V : Type) :=
| OMood (m : Mood V)
| OList (items : list loc).
Arguments OMood {V} m.
Arguments OList {V} items.

Definition St (V A : Type) : Type := list (obj V) -> result A * list (obj V).

Section Store.
Context {V : Type}.

Definition st_ret {A} (a : A) : St V A := fun h => (Ok a, h).

Definition st_bind {A B} (k : A -> St V B) (c : St V A) : St V B :=
  fun h =>
    match c h with
    | (Ok a, h') => k a h'
    | (Raise e, h') => (Raise e, h')
    end.

Definition lift {A} (r : result A) : St V A := fun h => (r, h).

(** [Mood(...)] and [[]]: a new object. *)
Definition alloc (o : obj V) : St V loc := fun h => (Ok (length h), h ++ [o]).

(** Reading a list object ([len(l)], [l[a:b]], [l[i]]). *)
Definition read_list (r : loc) : St V (list loc) :=
  fun h =>
    match h !! r with
    | Some (OList items) => (Ok items, h)
    | _ => (Raise TypeError, h)
    end.

(** Reading the attributes of an entry. *)
Definition read_mood (r : loc) : St V (Mood V) :=
  fun h =>
    match h !! r with
    | Some (OMood m) => (Ok m, h)
    | _ => (Raise AttributeError, h)
    end.

(** [l.append(x)]: the list object is updated in place. *)
Definition append (r : loc) (x : loc) : St V unit :=
  fun h =>
    match h !! r with
    | Some (OList items) => (Ok tt, <[r := OList (items ++ [x])]> h)
    | _ => (Raise AttributeError, h)
    end.

Fixpoint st_for_each {A B} (f : A -> St V B) (l : list A) : St V (list B) :=
  match l with
  | [] => st_ret []
  | x :: xs =>
      st_bind (fun y => st_bind (fun ys => st_ret (y :: ys)) (st_for_each f xs)) (f x)
  end.

(** One turn of the loop of [smooth_moods]. *)
Definition smooth_step (moods smoothed_moods : loc) (window_size : Z) (i : Z) : St V unit :=
  st_bind (fun items =>
    let w := window items i window_size in
    st_bind (fun scores =>
      st_bind (fun s =>
        st_bind (fun ri =>
          st_bind (fun m =>
            st_bind (fun new => append smoothed_moods new)
              (alloc (OMood {| type := type m; date := date m; score := s;
                               notes := notes m |})))
            (read_mood ri))
          (lift (index items i)))
        (lift (truediv (py_sum scores) (Int (len w)))))
      (st_for_each (fun r => st_bind (fun m => st_ret (score m)) (read_mood r)) w))
    (read_list moods).

Definition smooth_moods_st (moods : loc) (window_size : Z) : St V loc :=
  st_bind (fun smoothed_moods =>
    st_bind (fun items =>
      st_bind (fun _ => st_ret smoothed_moods)
        (st_for_each (smooth_step moods smoothed_moods window_size) (range (len items))))
      (read_list moods))
    (alloc (OList [])).

(** The store once [smooth_moods], started in [h], has appended the
    entries [acc]: the new list sits right after [h] and the new entries
    follow it. *)
Definition store_after (h : list (obj V)) (acc : list (Mood V)) : list (obj V) :=
  h ++ OList (seq (S (length h)) (length acc)) :: map OMood acc.

(** What a reference to a list of entries stands for in a store. *)
Definition points_to_moods (h : list (obj V)) (r : loc) (ms : list (Mood V)) : Prop :=
  exists items, h !! r = Some (OList items)
                /\ Forall2 (fun l m => h !! l = Some (OMood m)) items ms.
End Store.

(** ** The date sort and the tick labels

    The script sorts the loaded entries by date before it draws, and each
    trend chart labels its axis with one tick per month. *)

(** [a <= b] on [datetime]: by year, then month, then day. *)
Definition date_le (a b : datetime) : bool :=
  (year a <? year b)
  || ((year a =? year b)
      && ((month a <? month b) || ((month a =? month b) && (day a <=? day b)))).

#[global] Instance datetime_eq_dec : EqDecision datetime.
Proof. solve_decision. Defined.

(** [moods.sort(key=lambda x: x.date)] *)
Definition sort_moods {V} (moods : list (Mood V)) : list (Mood V) :=
  sorted date_le date moods.

(** Months in calendar order. *)
Definition month_lt (a b : Z * Z) : Prop :=
  fst a < fst b \/ (fst a = fst b /\ snd a < snd b).

(** The (year, month) of a date: the key of the tick groups. *)
Definition date_month (dt : datetime) : Z * Z := (year dt, month dt).

Section Ticks.
(** [x.strftime("%Y-%m")], left to the library. *)
Variable strftime : datetime -> string.

(** One tick per month: the first date met of each (year, month), formatted. *)
Definition month_ticks (dates : list datetime) : result (list string) :=
  for_each (fun x => first ← index (snd x) 0; Ok (strftime first))
           (group_by date_month dates).



End Ticks.

(** Equality of exact values, decided: used to pick the items of one mean. *)
#[global] Instance Qeq_decision (x y : Q) : Decision (x == y)%Q := Qeq_dec x y.

(** ** Sample data *)

Definition good_record : list (string * json) :=
  [ ("type", JStr "Mood"); ("date", JStr "2024-02-29");
    ("scores", JList [JInt 4; JInt 2]); ("notes", JStr "fine") ]%string.

Definition slash_record : list (string * json) :=
  [ ("type", JStr "Mood"); ("date", JStr "2024/02/29");
    ("scores", JList [JInt 4]); ("notes", JStr "fine") ]%string.

(** Three entries dated 2024-01-01 to 2024-01-03 with scores 1, 5, 3. *)
Definition january {V} (t1 n1 t2 n2 t3 n3 : V) : list (Mood V) :=
  [ mkMood t1 (mkDate 2024 1 1) (Int 1) n1;
    mkMood t2 (mkDate 2024 1 2) (Int 5) n2;
    mkMood t3 (mkDate 2024 1 3) (Int 3) n3 ].


Definition jan3 : list (Mood string) :=
  january "Mood" "a" "Mood" "bb" "Mood" "ccc"%string.

Definition february_entry : Mood string :=
  mkMood "Mood"%string (mkDate 2024 2 1) (Int 2) "later"%string.

Definition two_months : list (Mood string) := jan3 ++ [february_entry].

(** A store holding the three January entries and, at position 3, the list
    of them. *)
Definition jan3_store : list (obj string) := map OMood jan3 ++ [OList [0; 1; 2]%nat].

(** Entries out of date order, and a record with one more key. *)
Definition february_first : list (Mood string) := february_entry :: jan3.

Definition tagged_record : list (string * json) :=
  good_record ++ [("mood_id"%string, JInt 7)].

(** * Properties *)

(** ** Loops *)

Lemma for_each_length {A B} (f : A -> result B) l out :
  for_each f l = Ok out -> length out = length l.
Proof.
  revert out; induction l as [|x xs IH]; intros out; simpl.
  - intros [= <-]; reflexivity.
  - destruct (f x) as [y|e]; simpl; [|discriminate].
    destruct (for_each f xs) as [ys|e]; simpl; [|discriminate].
    intros [= <-]; simpl; f_equal; apply IH; reflexivity.
Qed.

Lemma for_each_Ok {A B} (f : A -> result B) (g : A -> B) l :
  Forall (fun x => f x = Ok (g x)) l -> for_each f l = Ok (map g l).
Proof.
  induction 1 as [|x xs Hx _ IH]; simpl; [reflexivity|].
  rewrite Hx, IH; reflexivity.
Qed.

Lemma for_each_Ok_inv {A B} (f : A -> result B) l out :
  for_each f l = Ok out -> Forall2 (fun x y => f x = Ok y) l out.
Proof.
  revert out; induction l as [|x xs IH]; intros out; simpl.
  - intros [= <-]; constructor.
  - destruct (f x) as [y|e] eqn:Hx; simpl; [|discriminate].
    destruct (for_each f xs) as [ys|e]; simpl; [|discriminate].
    intros [= <-]; constructor; auto.
Qed.


Lemma for_each_first_Raise {A B} (f : A -> result B) x xs e :
  f x = Raise e -> for_each f (x :: xs) = Raise e.
Proof. intros Hx; simpl; rewrite Hx; reflexivity. Qed.

(** ** Slices and windows *)

Lemma len_nonneg {A} (l : list A) : 0 <= len l.
Proof. unfold len; lia. Qed.

Lemma clamp_index_id n i : 0 <= i <= n -> clamp_index n i = i.
Proof.
  intros H; unfold clamp_index.
  destruct (Z.ltb_spec i 0); lia.
Qed.

Lemma slice_inside {A} (l : list A) a b :
  0 <= a <= len l -> 0 <= b <= len l ->
  slice l a b = take (Z.to_nat (b - a)) (drop (Z.to_nat a) l).
Proof.
  intros Ha Hb; unfold slice.
  rewrite !clamp_index_id by assumption; reflexivity.
Qed.

Lemma len_slice_inside {A} (l : list A) a b :
  0 <= a <= b -> b <= len l -> len (slice l a b) = b - a.
Proof.
  intros Ha Hb; rewrite slice_inside by lia.
  unfold len in *; rewrite length_take, length_drop; lia.
Qed.

Lemma window_bounds n i k :
  0 <= k -> 0 <= i < n ->
  0 <= window_start i k <= i /\ i <= window_end n i k <= n.
Proof. unfold window_start, window_end; lia. Qed.

Lemma len_window {A} (l : list A) i k :
  0 <= k -> 0 <= i < len l ->
  len (window l i k) = window_end (len l) i k - window_start i k.
Proof.
  intros Hk Hi; unfold window.
  pose proof (window_bounds (len l) i k Hk Hi).
  apply len_slice_inside; lia.
Qed.

Lemma window_lookup {A} (l : list A) i k (j : nat) :
  0 <= k -> 0 <= i < len l ->
  (j < Z.to_nat (window_end (len l) i k - window_start i k))%nat ->
  window l i k !! j = l !! (Z.to_nat (window_start i k) + j)%nat.
Proof.
  intros Hk Hi Hj; unfold window.
  pose proof (window_bounds (len l) i k Hk Hi).
  rewrite slice_inside by lia.
  rewrite lookup_take_lt by assumption.
  apply lookup_drop.
Qed.

(** The window at index 0 is empty when the window size is 0. *)
Lemma window_zero_empty {A} (l : list A) i : 0 <= i <= len l -> window l i 0 = [].
Proof.
  intros Hi; unfold window, window_start, window_end.
  rewrite slice_inside by lia.
  replace (Z.to_nat (Z.min (len l) (i + 0) - Z.max 0 (i - 0))) with 0%nat by lia.
  reflexivity.
Qed.

(** ** True division *)

Lemma truediv_zero a : truediv a (Int 0) = Raise ZeroDivisionError.
Proof. reflexivity. Qed.

Lemma truediv_pos a n :
  0 < n -> truediv a (Int n) = Ok (Float (Qred (num_val a / inject_Z n))).
Proof.
  intros Hn; unfold truediv; simpl.
  destruct (Qeq_bool (inject_Z n) 0) eqn:E; [|reflexivity].
  apply Qeq_bool_eq in E. unfold Qeq, inject_Z in E; simpl in E; lia.
Qed.

Lemma index_range {A} (l : list A) i :
  0 <= i < len l -> exists x, index l i = Ok x /\ l !! Z.to_nat i = Some x.
Proof.
  intros Hi; unfold index.
  destruct (Z.ltb_spec i 0); [lia|].
  destruct (l !! Z.to_nat i) as [x|] eqn:E; eauto.
  apply lookup_ge_None in E; unfold len in Hi; lia.
Qed.

Lemma in_range n i : In i (range n) <-> 0 <= i < n.
Proof.
  unfold range; rewrite in_map_iff; split.
  - intros (j & <- & Hj); apply in_seq in Hj; lia.
  - intros Hi; exists (Z.to_nat i); split; [lia|apply in_seq; lia].
Qed.

Lemma length_range n : length (range n) = Z.to_nat n.
Proof. unfold range; rewrite length_map, length_seq; reflexivity. Qed.

Lemma range_len_cons {A} (x : A) xs : exists rest, range (len (x :: xs)) = 0 :: rest.
Proof.
  unfold range, len; rewrite Nat2Z.id; simpl; eauto.
Qed.

Lemma for_each_total {A B} (f : A -> result B) l :
  (forall x, In x l -> exists y, f x = Ok y) -> exists out, for_each f l = Ok out.
Proof.
  induction l as [|x xs IH]; intros H; simpl; [eauto|].
  destruct (H x (or_introl eq_refl)) as [y ->].
  destruct IH as [ys ->]; [intros z Hz; apply H; right; exact Hz|].
  simpl; eauto.
Qed.

(** ** The smoothers return for a window size of at least 1 *)

Lemma window_size_pos {A} (l : list A) i k :
  1 <= k -> 0 <= i < len l -> 0 < len (window l i k).
Proof.
  intros Hk Hi; rewrite len_window by lia.
  unfold window_start, window_end; lia.
Qed.

Lemma mean_defined {A} (l : list A) i k s :
  1 <= k -> 0 <= i < len l ->
  truediv s (Int (len (window l i k)))
  = Ok (Float (Qred (num_val s / inject_Z (len (window l i k))))).
Proof. intros Hk Hi; apply truediv_pos, window_size_pos; assumption. Qed.

Lemma smooth_moods_total {V} (moods : list (Mood V)) k :
  1 <= k -> exists out, smooth_moods moods k = Ok out /\ length out = length moods.
Proof.
  intros Hk; unfold smooth_moods.
  destruct (for_each_total (smooth_at moods k) (range (len moods))) as [out Hout].
  - intros i Hi; apply in_range in Hi. unfold smooth_at.
    rewrite mean_defined by assumption; simpl.
    destruct (index_range moods i Hi) as (m & -> & _); simpl; eauto.
  - exists out; split; [exact Hout|].
    apply for_each_length in Hout; rewrite Hout, length_range.
    unfold len; lia.
Qed.

Lemma smooth_ints_total (ints : list Z) k :
  1 <= k -> exists out, smooth_ints ints k = Ok out /\ length out = length ints.
Proof.
  intros Hk; unfold smooth_ints.
  destruct (for_each_total
              (fun i => truediv (py_sum (map Int (window ints i k)))
                                (Int (len (window ints i k))))
              (range (len ints))) as [out Hout].
  - intros i Hi; apply in_range in Hi.
    rewrite mean_defined by assumption; eauto.
  - exists out; split; [exact Hout|].
    apply for_each_length in Hout; rewrite Hout, length_range.
    unfold len; lia.
Qed.

Lemma smooth_note_len_total (moods : list (Mood string)) k :
  1 <= k -> exists out, smooth_note_len moods k = Ok out /\ length out = length moods.
Proof.
  intros Hk; unfold smooth_note_len.
  destruct (for_each_total
              (fun i =>
                 nl ← truediv (py_sum (map (fun m => Int (str_len (notes m)))
                                            (window moods i k)))
                              (Int (len (window moods i k)));
                 m ← index moods i;
                 Ok (date m, nl))
              (range (len moods))) as [out Hout].
  - intros i Hi; apply in_range in Hi.
    rewrite mean_defined by assumption; simpl.
    destruct (index_range moods i Hi) as (m & -> & _); simpl; eauto.
  - exists out; split; [exact Hout|].
    apply for_each_length in Hout; rewrite Hout, length_range.
    unfold len; lia.
Qed.

(** With window size 0 the first window is [moods[0:0]]. *)
Lemma smooth_moods_zero_raises {V} (m : Mood V) ms :
  smooth_moods (m :: ms) 0 = Raise ZeroDivisionError.
Proof.
  unfold smooth_moods.
  destruct (range_len_cons m ms) as [rest ->].
  apply for_each_first_Raise. unfold smooth_at.
  rewrite window_zero_empty by (pose proof (len_nonneg (m :: ms)); lia).
  reflexivity.
Qed.






(** The window sizes the charts use (60 and 14) are fine: the trend charts
    get one smoothed value per entry. *)
Lemma trend_charts_defined {V} (moods : list (Mood V)) (entries : list (Mood string)) :
  (exists out, plot_mood_in_time moods = Ok out /\ length out = length moods)
  /\ (exists out, plot_note_len_in_time entries = Ok out /\ length out = length entries).
Proof.
  split; [apply smooth_moods_total|apply smooth_note_len_total]; lia.
Qed.

(** ** C1: the three-entry example *)

(** C1 (as stated, refuted): for the entries dated 2024-01-01, 2024-01-02,
    2024-01-03 with scores 1, 5, 3 and window size 1, the smoothed scores are
    not [3.0, 3.0, 4.0]: the first window is [moods[0:1]], the single score 1,
    and the first smoothed score is 1.0. *)
Lemma smooth_example_C1_counterexample :
  exists out,
    smooth_moods (january "a" "" "b" "" "c" "")%string 1 = Ok out
    /\ map score out = [Float 1; Float 3; Float 4]
    /\ map score out <> [Float 3; Float 3; Float 4]
    /\ ~ (num_val (Float 1) == 3)%Q.
Proof.
  eexists; split; [reflexivity|].
  split; [reflexivity|].
  split; [discriminate|].
  unfold Qeq; simpl; lia.
Qed.

(** C1 (amended): for three entries dated 2024-01-01, 2024-01-02, 2024-01-03
    with scores 1, 5, 3, whatever their labels and notes, smoothing with
    window size 1 returns the same three entries with the scores
    [1/1, (1+5)/2, (5+3)/2] = [1.0, 3.0, 4.0]: the window at index [i] is
    [moods[max(0,i-1) : min(3,i+1)]], which stops before index [i+1]. *)
Theorem smooth_example_C1 {V} (t1 n1 t2 n2 t3 n3 : V) :
  smooth_moods (january t1 n1 t2 n2 t3 n3) 1
  = Ok [ mkMood t1 (mkDate 2024 1 1) (Float 1) n1;
         mkMood t2 (mkDate 2024 1 2) (Float 3) n2;
         mkMood t3 (mkDate 2024 1 3) (Float 4) n3 ]
  /\ map (fun i => window_start i 1) (range 3) = [0; 0; 1]
  /\ map (fun i => window_end 3 i 1) (range 3) = [1; 2; 3]
  /\ (1 # 1 == 1 /\ (1 + 5) # 2 == 3 /\ (5 + 3) # 2 == 4)%Q.
Proof.
  repeat split; reflexivity.
Qed.

(** ** C2: the size of a window *)

(** C2 (as stated, refuted): with window size 0 the window at index 0 of a
    one-element sequence is empty, so its size is not within [1, 2*0+1]. *)
Lemma window_size_C2_counterexample :
  let k := 0 in
  let l := [7] in
  let i := 0 in
  0 <= k /\ 1 <= len l /\ 0 <= i < len l
  /\ window l i k = []
  /\ len (window l i k) = Z.min (len l) (i + k) - Z.max 0 (i - k)
  /\ ~ (1 <= len (window l i k) <= 2 * k + 1).
Proof.
  cbv zeta. repeat split; try reflexivity; try (vm_compute; congruence).
  vm_compute. intros [H _]. apply H; reflexivity.
Qed.

(** C2 (amended): for every window size [k >= 0], every sequence of length
    [n >= 1] and every index [0 <= i < n], the window at [i] has size
    [min(n, i+k) - max(0, i-k)]; this size is at most [2k] (hence within
    [2k+1]), it is at least 1 when [k >= 1], and it is 0 when [k = 0]. *)
Theorem window_size_C2 {A} (l : list A) (k i : Z) :
  0 <= k -> 0 <= i < len l ->
  len (window l i k) = Z.min (len l) (i + k) - Z.max 0 (i - k)
  /\ len (window l i k) <= 2 * k
  /\ len (window l i k) <= 2 * k + 1
  /\ (1 <= k -> 1 <= len (window l i k))
  /\ (k = 0 -> len (window l i k) = 0).
Proof.
  intros Hk Hi.
  rewrite len_window by assumption.
  unfold window_start, window_end.
  repeat split; lia.
Qed.

Lemma window_size_C2_witness :
  len (window [10; 20; 30; 40; 50] 2 1) = Z.min 5 (2 + 1) - Z.max 0 (2 - 1)
  /\ len (window [10; 20; 30; 40; 50] 2 1) <= 2 * 1
  /\ len (window [10; 20; 30; 40; 50] 2 1) <= 2 * 1 + 1
  /\ (1 <= 1 -> 1 <= len (window [10; 20; 30; 40; 50] 2 1))
  /\ (1 = 0 -> len (window [10; 20; 30; 40; 50] 2 1) = 0).
Proof.
  apply (window_size_C2 [10; 20; 30; 40; 50] 1 2); [lia | vm_compute; split; congruence].
Defined.

(** ** C10: the window holds its own index *)

(** C10: for every window size [k >= 1], every sequence and every index
    [0 <= i < n], the slice from [max(0, i-k)] to [min(n, i+k)] (end
    exclusive) contains position [i], so the window is not empty and the
    mean's division by its length returns a value: no division by zero. *)
Theorem window_nonempty_C10 {A} (l : list A) (k i : Z) :
  1 <= k -> 0 <= i < len l ->
  window_start i k <= i < window_end (len l) i k
  /\ window l i k !! Z.to_nat (i - window_start i k) = l !! Z.to_nat i
  /\ window l i k <> []
  /\ 1 <= len (window l i k)
  /\ forall s, exists q, truediv s (Int (len (window l i k))) = Ok (Float q).
Proof.
  intros Hk Hi.
  assert (Hb : window_start i k <= i < window_end (len l) i k)
    by (unfold window_start, window_end; lia).
  pose proof (window_size_pos l i k Hk Hi) as Hpos.
  split; [exact Hb|].
  split.
  { rewrite window_lookup by lia.
    f_equal. unfold window_start in *; lia. }
  split.
  { intros E; rewrite E in Hpos; unfold len in Hpos; simpl in Hpos; lia. }
  split; [lia|].
  intros s; rewrite mean_defined by assumption; eauto.
Qed.

Lemma window_nonempty_C10_witness :
  window_start 0 1 <= 0 < window_end (len [4; 8]) 0 1
  /\ window [4; 8] 0 1 !! Z.to_nat (0 - window_start 0 1) = [4; 8] !! Z.to_nat 0
  /\ window [4; 8] 0 1 <> []
  /\ 1 <= len (window [4; 8] 0 1)
  /\ forall s, exists q, truediv s (Int (len (window [4; 8] 0 1))) = Ok (Float q).
Proof.
  apply (window_nonempty_C10 [4; 8] 1 0); [lia | vm_compute; split; congruence].
Defined.

(** ** C3: the output is as long as the input *)




(** ** C4: window size 0 *)

(** C4 (as stated, refuted): with window size 0 a one-entry input is not
    returned with its score unchanged; the call raises. *)
Lemma smooth_zero_C4_counterexample :
  smooth_moods (january 1 2 3 4 5 6)%nat 0 = Raise ZeroDivisionError
  /\ ~ exists out, smooth_moods (january 1 2 3 4 5 6)%nat 0 = Ok out
                   /\ map score out = map score (january 1 2 3 4 5 6)%nat.
Proof.
  split; [reflexivity|].
  intros (out & H & _); vm_compute in H; discriminate.
Qed.

(** C4 (amended): with window size 0 every window [moods[i:i]] is empty, so
    smoothing raises [ZeroDivisionError] on every non-empty input; only the
    empty input is returned (unchanged). *)
Theorem smooth_zero_C4 {V} (moods : list (Mood V)) :
  smooth_moods moods 0
  = match moods with
    | [] => Ok []
    | _ :: _ => Raise ZeroDivisionError
    end.
Proof.
  destruct moods as [|m ms]; [reflexivity|].
  apply smooth_moods_zero_raises.
Qed.

(** ** Grouping *)

Section GroupBy.
Context {A K : Type} `{EqDecision K} (key : A -> K).

Lemma group_by_snoc l x :
  group_by key (l ++ [x]) = group_add (key x) x (group_by key l).
Proof. unfold group_by; rewrite fold_left_app; reflexivity. Qed.

Lemma group_add_known (k : K) (x : A) gs :
  In k (map fst gs) -> map fst (group_add k x gs) = map fst gs.
Proof.
  induction gs as [|[k' g] gs IH]; simpl; [tauto|].
  intros Hin; destruct (decide (k = k')) as [->|Hne]; simpl; [reflexivity|].
  f_equal; apply IH; destruct Hin; congruence.
Qed.

Lemma group_add_new (k : K) (x : A) gs :
  ~ In k (map fst gs) -> group_add k x gs = gs ++ [(k, [x])].
Proof.
  induction gs as [|[k' g] gs IH]; simpl; [reflexivity|].
  intros Hnin; destruct (decide (k = k')) as [->|Hne]; [tauto|].
  f_equal; apply IH; tauto.
Qed.

Lemma group_add_members (k : K) (x : A) gs :
  concat (map snd (group_add k x gs)) ≡ₚ x :: concat (map snd gs).
Proof.
  induction gs as [|[k' g] gs IH]; simpl; [reflexivity|].
  destruct (decide (k = k')); simpl.
  - rewrite <- app_assoc; simpl.
    rewrite <- Permutation_middle; reflexivity.
  - rewrite IH. rewrite <- Permutation_middle; reflexivity.
Qed.

Lemma group_add_filter l x gs :
  NoDup (map fst gs) ->
  Forall (fun kg => snd kg = filter (fun y => key y = fst kg) l) gs ->
  (~ In (key x) (map fst gs) -> filter (fun y => key y = key x) l = []) ->
  Forall (fun kg => snd kg = filter (fun y => key y = fst kg) (l ++ [x]))
         (group_add (key x) x gs).
Proof.
  induction gs as [|[k' g] gs IH]; simpl; intros Hnd Hall Hnew.
  - constructor; [|constructor]; simpl.
    rewrite filter_app, Hnew by tauto.
    rewrite filter_cons_True by reflexivity; reflexivity.
  - apply NoDup_cons in Hnd as [Hk' Hnd].
    apply Forall_cons in Hall as [Hg Hall]; simpl in Hg.
    destruct (decide (key x = k')) as [E|Hne].
    + constructor; simpl.
      * rewrite filter_app, <- Hg, filter_cons_True by exact E; reflexivity.
      * rewrite Forall_forall in Hall |- *.
        intros [k'' g''] Hin; simpl.
        pose proof (Hall _ Hin) as Hkg; simpl in Hkg.
        rewrite filter_app, <- Hkg.
        rewrite filter_cons_False; [rewrite app_nil_r; reflexivity|].
        intros E'; apply Hk'. apply list_elem_of_In, in_map_iff.
        exists (k'', g''); split; [simpl; congruence|apply list_elem_of_In, Hin].
    + constructor; simpl.
      * rewrite filter_app, <- Hg.
        rewrite filter_cons_False by exact Hne; rewrite app_nil_r; reflexivity.
      * apply IH; [exact Hnd|exact Hall|].
        intros Hnin; apply Hnew; intros [E|Hin]; [congruence|tauto].
Qed.

(** The groups are pairwise distinct keys, each with the elements of that
    key in their input order; every key of the input has its group. *)
Lemma group_by_spec l :
  NoDup (map fst (group_by key l))
  /\ Forall (fun kg => snd kg = filter (fun y => key y = fst kg) l) (group_by key l)
  /\ (forall k, In k (map fst (group_by key l)) <-> In k (map key l)).
Proof.
  induction l as [|x l IH] using rev_ind.
  - split; [constructor|]. split; [constructor|]. reflexivity.
  - destruct IH as (Hnd & Hall & Hkeys).
    rewrite group_by_snoc.
    assert (Hnew : ~ In (key x) (map fst (group_by key l)) ->
                   filter (fun y => key y = key x) l = []).
    { intros Hnin. apply elem_of_nil_inv; intros y Hy.
      apply list_elem_of_filter in Hy as [Hk Hy].
      apply Hnin, Hkeys, in_map_iff.
      exists y; split; [exact Hk|apply list_elem_of_In, Hy]. }
    split; [|split].
    + destruct (decide (key x ∈ map fst (group_by key l))) as [Hin|Hnin].
      * rewrite group_add_known by (apply list_elem_of_In, Hin); exact Hnd.
      * rewrite group_add_new by (rewrite <- list_elem_of_In; exact Hnin).
        rewrite map_app; simpl.
        apply NoDup_app; split; [exact Hnd|]. split.
        -- intros k Hk Hk'. apply list_elem_of_singleton in Hk'; subst k. tauto.
        -- apply NoDup_singleton.
    + apply group_add_filter; assumption.
    + intros k. rewrite map_app, in_app_iff; simpl.
      destruct (decide (key x ∈ map fst (group_by key l))) as [Hin|Hnin].
      * rewrite group_add_known by (apply list_elem_of_In, Hin).
        rewrite Hkeys. apply list_elem_of_In, Hkeys in Hin.
        split; [tauto|]. intros [H|[<-|[]]]; assumption.
      * rewrite group_add_new by (rewrite <- list_elem_of_In; exact Hnin).
        rewrite map_app, in_app_iff; simpl. rewrite Hkeys; tauto.
Qed.

Lemma group_by_members l : concat (map snd (group_by key l)) ≡ₚ l.
Proof.
  induction l as [|x l IH] using rev_ind; [reflexivity|].
  rewrite group_by_snoc, group_add_members, IH.
  apply Permutation_cons_append.
Qed.

Lemma group_by_sizes l :
  list_sum (map (fun kg => length (snd kg)) (group_by key l)) = length l.
Proof.
  rewrite <- (Permutation_length (group_by_members l)).
  induction (group_by key l) as [|[k g] gs IH]; simpl; [reflexivity|].
  rewrite length_app, IH; reflexivity.
Qed.

Lemma group_by_nonempty l k g : In (k, g) (group_by key l) -> g <> [].
Proof.
  intros Hin.
  destruct (group_by_spec l) as (_ & Hall & Hkeys).
  rewrite Forall_forall in Hall.
  pose proof (Hall (k, g) (proj2 (list_elem_of_In _ _) Hin)) as Hg; simpl in Hg.
  assert (Hk : In k (map key l)).
  { apply Hkeys, in_map_iff; exists (k, g); split; [reflexivity|exact Hin]. }
  apply in_map_iff in Hk as (y & Hy & Hyl).
  intros E. rewrite E in Hg.
  symmetry in Hg.
  apply (filter_nil_not_elem_of (fun y => key y = k) l y Hg Hy).
  apply list_elem_of_In, Hyl.
Qed.
End GroupBy.

(** ** C6: monthly aggregation is a partition *)

(** C6: grouping by (year, month) partitions the entries.  The groups have
    pairwise distinct keys; the group of a key holds exactly the entries of
    that month, in input order, and is not empty; every entry lies in the
    group of its own (year, month) and in no group of another key; the groups
    together are a rearrangement of the entries, and their sizes add up to
    the number of entries. *)
Theorem monthly_partition_C6 {V} (moods : list (Mood V)) :
  NoDup (map fst (group_by month_key moods))
  /\ (forall k g, In (k, g) (group_by month_key moods) ->
        g = filter (fun m => month_key m = k) moods /\ g <> [])
  /\ (forall m, In m moods ->
        exists g, In (month_key m, g) (group_by month_key moods) /\ In m g)
  /\ (forall m k g, In (k, g) (group_by month_key moods) -> In m g -> k = month_key m)
  /\ concat (map snd (group_by month_key moods)) ≡ₚ moods
  /\ list_sum (map (fun kg => length (snd kg)) (group_by month_key moods)) = length moods.
Proof.
  destruct (group_by_spec month_key moods) as (Hnd & Hall & Hkeys).
  rewrite Forall_forall in Hall.
  assert (Hgrp : forall k g, In (k, g) (group_by month_key moods) ->
                             g = filter (fun m => month_key m = k) moods).
  { intros k g Hin. apply list_elem_of_In in Hin. exact (Hall _ Hin). }
  split; [exact Hnd|].
  split.
  { intros k g Hin; split; [apply Hgrp, Hin|].
    eapply group_by_nonempty; exact Hin. }
  split.
  { intros m Hm.
    assert (Hk : In (month_key m) (map fst (group_by month_key moods))).
    { apply Hkeys, in_map; exact Hm. }
    apply in_map_iff in Hk as ([k g] & Ek & Hin); simpl in Ek; subst k.
    exists g; split; [exact Hin|].
    rewrite (Hgrp _ _ Hin).
    apply list_elem_of_In, list_elem_of_filter; split; [reflexivity|].
    apply list_elem_of_In, Hm. }
  split.
  { intros m k g Hin Hm.
    rewrite (Hgrp _ _ Hin) in Hm.
    apply list_elem_of_In, list_elem_of_filter in Hm as [Hk _].
    symmetry; exact Hk. }
  split; [apply group_by_members | apply group_by_sizes].
Qed.

Lemma monthly_partition_C6_witness :
  group_by month_key two_months = [ ((2024, 1), jan3); ((2024, 2), [february_entry]) ]
  /\ jan3 = filter (fun m => month_key m = (2024, 1)) two_months
  /\ list_sum (map (fun kg => length (snd kg)) (group_by month_key two_months))
     = length two_months.
Proof.
  pose proof (monthly_partition_C6 two_months) as (_ & Hgrp & _ & _ & _ & Hsum).
  split; [reflexivity|].
  split; [|exact Hsum].
  apply (Hgrp (2024, 1) jan3).
  vm_compute; left; reflexivity.
Defined.

(** ** Sorting *)

Section Sorting.
Context {A K : Type} (before : K -> K -> bool) (key : A -> K).
Hypothesis before_total : forall a b, before a b = true \/ before b a = true.
Hypothesis before_trans :
  forall a b c, before a b = true -> before b c = true -> before a c = true.

Lemma insert_by_Permutation x l : insert_by before key x l ≡ₚ x :: l.
Proof.
  induction l as [|y ys IH]; simpl; [reflexivity|].
  destruct (before (key x) (key y)); [reflexivity|].
  rewrite IH; apply perm_swap.
Qed.

Lemma sorted_Permutation l : sorted before key l ≡ₚ l.
Proof.
  induction l as [|x xs IH]; simpl; [reflexivity|].
  rewrite insert_by_Permutation, IH; reflexivity.
Qed.


Lemma insert_by_StronglySorted x l :
  StronglySorted (fun a b => before (key a) (key b) = true) l ->
  StronglySorted (fun a b => before (key a) (key b) = true) (insert_by before key x l).
Proof.
  induction 1 as [|y ys Hys IH Hy]; simpl.
  - constructor; constructor.
  - destruct (before (key x) (key y)) eqn:E.
    + constructor; [constructor; assumption|].
      constructor; [exact E|].
      eapply Forall_impl; [exact Hy|].
      intros z Hz; simpl in Hz; eapply before_trans; eassumption.
    + constructor; [exact IH|].
      rewrite (insert_by_Permutation x ys).
      constructor; [|exact Hy].
      destruct (before_total (key x) (key y)); congruence.
Qed.

Lemma sorted_StronglySorted l :
  StronglySorted (fun a b => before (key a) (key b) = true) (sorted before key l).
Proof.
  induction l as [|x xs IH]; simpl; [constructor|].
  apply insert_by_StronglySorted, IH.
Qed.

(** Stability: the elements of one key class keep their input order. *)
Lemma insert_by_stable (P : A -> bool) x l :
  (forall a b, P a = true -> P b = true -> before (key a) (key b) = true) ->
  List.filter P (insert_by before key x l) = List.filter P (x :: l).
Proof.
  intros HP; induction l as [|y ys IH]; [reflexivity|].
  cbn [insert_by].
  destruct (before (key x) (key y)) eqn:E; [reflexivity|].
  cbn [List.filter] in *. rewrite IH.
  destruct (P x) eqn:Px, (P y) eqn:Py; try reflexivity.
  rewrite (HP x y Px Py) in E; discriminate.
Qed.

Lemma sorted_stable (P : A -> bool) l :
  (forall a b, P a = true -> P b = true -> before (key a) (key b) = true) ->
  List.filter P (sorted before key l) = List.filter P l.
Proof.
  intros HP; induction l as [|x xs IH]; [reflexivity|].
  cbn [sorted foldr]. fold (sorted before key xs).
  rewrite insert_by_stable by exact HP.
  cbn [List.filter]; rewrite IH; reflexivity.
Qed.
End Sorting.








Lemma StronglySorted_weaken {A} (R R' : A -> A -> Prop) l :
  (forall a b, R a b -> R' a b) -> StronglySorted R l -> StronglySorted R' l.
Proof.
  intros HR; induction 1 as [|x xs Hxs IH Hx]; constructor; [exact IH|].
  eapply Forall_impl; [exact Hx|]. intros y; apply HR.
Qed.

(** ** Monthly means *)

Lemma avg_nonempty {A} (g : list A) (key : A -> num) :
  g <> [] -> exists q, avg g key = Ok (Float q).
Proof.
  intros Hg; unfold avg; rewrite truediv_pos; [eauto|].
  destruct g; [congruence|]; unfold len; simpl; lia.
Qed.

(** Every month of the input gets a mean: no group is empty. *)
Lemma monthly_means_total {V} (moods : list (Mood V)) :
  exists means,
    monthly_means moods = Ok means
    /\ Forall2 (fun kg r => fst r = fst kg /\ avg (snd kg) score = Ok (snd r))
               (group_by month_key moods) means.
Proof.
  unfold monthly_means.
  destruct (for_each_total (fun x => a ← avg (snd x) score; Ok (fst x, a))
                           (group_by month_key moods)) as [means Hm].
  - intros [k g] Hin; simpl.
    destruct (avg_nonempty g score) as [q ->]; [|simpl; eauto].
    eapply group_by_nonempty; exact Hin.
  - exists means; split; [exact Hm|].
    apply for_each_Ok_inv in Hm.
    eapply Forall2_impl; [exact Hm|].
    intros [k g] r; simpl.
    destruct (avg g score) as [a|e]; simpl; [|discriminate].
    intros [= <-]; auto.
Qed.

(** ** C5: the rankings *)


Example strptime_examples :
  strptime (JStr "2024-02-29") = Ok (mkDate 2024 2 29)
  /\ strptime (JStr "2024-1-5") = Ok (mkDate 2024 1 5)
  /\ strptime (JStr "2023-02-29") = Raise ValueError
  /\ strptime (JStr "2023-13-01") = Raise ValueError
  /\ strptime (JStr "2023-12-32") = Raise ValueError
  /\ strptime (JStr "2023/12/03") = Raise ValueError
  /\ strptime (JStr "2023-12-03 ") = Raise ValueError
  /\ strptime JNull = Raise TypeError.
Proof. repeat split; reflexivity. Qed.

(** ** Parsing a record *)





Lemma load_moods_Ok records moods :
  load_moods records = Ok moods -> Forall2 (fun r m => from_dict r = Ok m) records moods.
Proof. apply for_each_Ok_inv. Qed.


(** ** C7: parsing a raw record *)



(** ** Keyword occurrences *)

Lemma starts_with_spec s w :
  starts_with s w = true <-> exists b, s = String.append w b.
Proof.
  revert s; induction w as [|c w IH]; intros s; simpl.
  - split; [intros _; exists s; reflexivity|destruct s; reflexivity].
  - destruct s as [|c' s]; simpl.
    + split; [discriminate|intros [b [=]]].
    + rewrite andb_true_iff, Ascii.eqb_eq, IH. split.
      * intros [-> [b ->]]; exists b; reflexivity.
      * intros [b [= -> ->]]; split; [reflexivity|exists b; reflexivity].
Qed.

Lemma contains_nil w : contains EmptyString w = starts_with EmptyString w || false.
Proof. reflexivity. Qed.

Lemma contains_cons c s w :
  contains (String c s) w = starts_with (String c s) w || contains s w.
Proof. reflexivity. Qed.

Lemma contains_spec s w : contains s w = true <-> occurs_in w s.
Proof.
  unfold occurs_in; induction s as [|c s IH].
  - rewrite contains_nil, orb_false_r, starts_with_spec. split.
    + intros [b Hb]; exists EmptyString, b; exact Hb.
    + intros ([|c a] & b & E); simpl in E; [exists b; exact E|discriminate].
  - rewrite contains_cons, orb_true_iff, starts_with_spec, IH. split.
    + intros [[b Hb]|(a & b & ->)].
      * exists EmptyString, b; exact Hb.
      * exists (String c a), b; reflexivity.
    + intros ([|c' a] & b & E); simpl in E.
      * left; exists b; exact E.
      * right; injection E as -> ->; exists a, b; reflexivity.
Qed.

Lemma filter_map_length {A B} (f : A -> B) (P : B -> Prop) `{!forall y, Decision (P y)} l :
  length (filter P (map f l)) = length (filter (fun x => P (f x)) l).
Proof.
  induction l as [|x l IH]; simpl; [reflexivity|].
  rewrite !filter_cons. destruct (decide (P (f x))); simpl; rewrite IH; reflexivity.
Qed.

Lemma elements_lower_words (words : gset string) :
  (forall w1 w2, w1 ∈ words -> w2 ∈ words -> lower w1 = lower w2 -> w1 = w2) ->
  elements (lower_words words) ≡ₚ map lower (elements words).
Proof.
  intros Hinj. apply NoDup_Permutation.
  - apply NoDup_elements.
  - apply (NoDup_fmap_2_strong lower); [|apply NoDup_elements].
    intros w1 w2 H1 H2; apply Hinj; apply elem_of_elements; assumption.
  - intros w'. rewrite elem_of_elements. unfold lower_words.
    rewrite elem_of_map. rewrite list_elem_of_In, in_map_iff.
    split; intros (w & Hw & Hin).
    + exists w; split; [symmetry; exact Hw|]. apply list_elem_of_In, elem_of_elements, Hin.
    + exists w; split; [symmetry; exact Hw|]. apply elem_of_elements, list_elem_of_In, Hin.
Qed.

(** ** C8: keyword occurrences *)

(** C8 (as stated, refuted): for the target words "A" and "a" and the note
    "a", both target words occur in the note when case is ignored, yet the
    count is 1: the words are lowered into a set before they are counted. *)
Lemma keyword_count_C8_counterexample :
  words_occurring {[ "A"; "a" ]}%string "a" = 2
  /\ count_words (lower_words {[ "A"; "a" ]}%string) "a" = 1
  /\ exists smoothed,
      plot_days_containing_words
        [mkMood "Mood" (mkDate 2024 1 1) (Int 1) "a"]%string {[ "A"; "a" ]}%string
      = Ok ([mkDate 2024 1 1], smoothed)
      /\ smooth_ints [1] 14 = Ok smoothed.
Proof.
  split; [vm_compute; reflexivity|].
  split; [vm_compute; reflexivity|].
  eexists; split; vm_compute; reflexivity.
Qed.

(** C8 (amended): for every set of target words and every entry, the
    keyword-occurrence count of the entry is the number of distinct
    lower-cased target words that occur as substrings in the lower-cased
    note (target words that differ only in case count once; when no two
    target words differ only in case it is the number of target words that
    occur, case ignored), and the sequence of these counts is then smoothed
    with window size 14, which always returns one value per entry. *)
Theorem keyword_count_C8 (moods : list (Mood string)) (words : gset string) :
  (forall note, exists found : list string,
      NoDup found
      /\ (forall w', w' ∈ found <->
                     (exists w, w ∈ words /\ w' = lower w) /\ occurs_in w' (lower note))
      /\ count_words (lower_words words) note = len found)
  /\ ((forall w1 w2, w1 ∈ words -> w2 ∈ words -> lower w1 = lower w2 -> w1 = w2) ->
      forall note, count_words (lower_words words) note = words_occurring words note)
  /\ exists smoothed,
      plot_days_containing_words moods words = Ok (map date moods, smoothed)
      /\ smooth_ints (map (fun m => count_words (lower_words words) (notes m)) moods) 14
         = Ok smoothed
      /\ length smoothed = length moods.
Proof.
  split; [|split].
  - intros note.
    exists (filter (fun w => contains (lower note) w = true) (elements (lower_words words))).
    split; [apply NoDup_filter, NoDup_elements|].
    split; [|reflexivity].
    intros w'. rewrite list_elem_of_filter, elem_of_elements, contains_spec.
    unfold lower_words; rewrite elem_of_map.
    split.
    + intros [Hoc (w & -> & Hw)]; split; [exists w; auto|exact Hoc].
    + intros [(w & Hw & ->) Hoc]; split; [exact Hoc|exists w; auto].
  - intros Hinj note. unfold count_words, words_occurring, len.
    rewrite (Permutation_length
               (filter_Permutation _ _ _ (elements_lower_words words Hinj))).
    rewrite filter_map_length; reflexivity.
  - unfold plot_days_containing_words.
    rewrite !map_map; simpl.
    destruct (smooth_ints_total
                (map (fun m => count_words (lower_words words) (notes m)) moods) 14)
      as (smoothed & Hs & Hlen); [lia|].
    exists smoothed. rewrite Hs; simpl.
    split; [reflexivity|]. split; [reflexivity|].
    rewrite Hlen, length_map; reflexivity.
Qed.

Lemma keyword_count_C8_witness :
  count_words (lower_words {[ "Word"; "b" ]}%string) "bb Word"
  = words_occurring {[ "Word"; "b" ]}%string "bb Word"
  /\ words_occurring {[ "Word"; "b" ]}%string "bb Word" = 2.
Proof.
  split; [|vm_compute; reflexivity].
  apply (proj1 (proj2 (keyword_count_C8 [] {[ "Word"; "b" ]}%string))).
  intros w1 w2 H1 H2.
  apply elem_of_union in H1 as [H1|H1]; apply elem_of_singleton in H1;
    apply elem_of_union in H2 as [H2|H2]; apply elem_of_singleton in H2;
    subst; intros H; try reflexivity; vm_compute in H; discriminate.
Defined.

(** ** [smooth_moods] on the store *)

Lemma window_Forall2 {A B} (R : A -> B -> Prop) (l : list A) (l' : list B) i k :
  Forall2 R l l' -> Forall2 R (window l i k) (window l' i k).
Proof.
  intros H; unfold window, slice, len.
  rewrite <- (Forall2_length _ _ _ H).
  apply Forall2_take, Forall2_drop, H.
Qed.

Lemma index_Forall2 {A B} (R : A -> B -> Prop) (l : list A) (l' : list B) i :
  Forall2 R l l' ->
  match index l i with
  | Ok x => exists y, index l' i = Ok y /\ R x y
  | Raise e => index l' i = Raise e
  end.
Proof.
  intros H; unfold index.
  destruct (i <? 0); [reflexivity|].
  destruct (l !! Z.to_nat i) as [x|] eqn:E.
  - destruct (Forall2_lookup_l _ _ _ _ _ H E) as (y & -> & Hxy); eauto.
  - apply lookup_ge_None in E.
    rewrite (Forall2_length _ _ _ H) in E.
    apply lookup_ge_None in E; rewrite E; reflexivity.
Qed.

Lemma range_lookup n (i : nat) :
  (i < Z.to_nat n)%nat -> range n !! i = Some (Z.of_nat i).
Proof.
  intros Hi; unfold range.
  change (map Z.of_nat (seq 0 (Z.to_nat n))) with (Z.of_nat <$> seq 0 (Z.to_nat n)).
  rewrite list_lookup_fmap, lookup_seq_lt by exact Hi; reflexivity.
Qed.

(** What the entry returned at index [i] is made of. *)
Lemma smooth_moods_lookup {V} (moods out : list (Mood V)) k (i : nat) m :
  smooth_moods moods k = Ok out -> moods !! i = Some m ->
  exists o, out !! i = Some o
            /\ type o = type m /\ date o = date m /\ notes o = notes m
            /\ truediv (py_sum (map score (window moods (Z.of_nat i) k)))
                       (Int (len (window moods (Z.of_nat i) k))) = Ok (score o).
Proof.
  intros Hout Hm.
  apply for_each_Ok_inv in Hout.
  assert (Hi : (i < length moods)%nat) by (apply lookup_lt_is_Some; eauto).
  assert (Hr : range (len moods) !! i = Some (Z.of_nat i)).
  { apply range_lookup; unfold len; lia. }
  destruct (Forall2_lookup_l _ _ _ _ _ Hout Hr) as (o & Ho & Hbody).
  exists o; split; [exact Ho|].
  unfold smooth_at in Hbody.
  destruct (truediv _ _) as [s|e]; simpl in Hbody; [|discriminate].
  unfold index in Hbody.
  destruct (Z.ltb_spec (Z.of_nat i) 0); [lia|].
  rewrite Nat2Z.id, Hm in Hbody; simpl in Hbody.
  injection Hbody as <-; simpl; auto.
Qed.

Section StoreFacts.
Context {V : Type}.
Implicit Types (h : list (obj V)) (ms acc : list (Mood V)).

Lemma st_bind_Ok {A B} (k : A -> St V B) (c : St V A) h a h' :
  c h = (Ok a, h') -> st_bind k c h = k a h'.
Proof. intros H; unfold st_bind; rewrite H; reflexivity. Qed.

Lemma st_bind_Raise {A B} (k : A -> St V B) (c : St V A) h e h' :
  c h = (Raise e, h') -> st_bind k c h = (Raise e, h').
Proof. intros H; unfold st_bind; rewrite H; reflexivity. Qed.

Lemma read_mood_Ok h l m : h !! l = Some (OMood m) -> read_mood l h = (Ok m, h).
Proof. intros H; unfold read_mood; rewrite H; reflexivity. Qed.

Lemma read_list_Ok h r items : h !! r = Some (OList items) -> read_list r h = (Ok items, h).
Proof. intros H; unfold read_list; rewrite H; reflexivity. Qed.

Lemma append_Ok h r items x :
  h !! r = Some (OList items) ->
  append r x h = (Ok tt, <[r := OList (items ++ [x])]> h).
Proof. intros H; unfold append; rewrite H; reflexivity. Qed.

Lemma read_scores h (w : list loc) (wms : list (Mood V)) :
  Forall2 (fun l m => h !! l = Some (OMood m)) w wms ->
  st_for_each (fun r => st_bind (fun m => st_ret (score m)) (read_mood r)) w h
  = (Ok (map score wms), h).
Proof.
  induction 1 as [|l m w wms Hl _ IH]; [reflexivity|].
  cbn [st_for_each].
  erewrite st_bind_Ok;
    [|erewrite st_bind_Ok; [reflexivity|apply read_mood_Ok, Hl]].
  erewrite st_bind_Ok; [|exact IH].
  reflexivity.
Qed.

Lemma length_store_after h acc :
  length (store_after h acc) = (S (length h) + length acc)%nat.
Proof. unfold store_after; rewrite length_app; simpl; rewrite length_map; lia. Qed.

Lemma store_after_snoc h acc o :
  <[length h := OList (seq (S (length h)) (length acc) ++ [length (store_after h acc)])]>
    (store_after h acc ++ [OMood o])
  = store_after h (acc ++ [o]).
Proof.
  rewrite length_store_after. unfold store_after.
  rewrite <- app_assoc; simpl.
  replace (length h) with (length h + 0)%nat at 1 by lia.
  rewrite insert_app_r; simpl.
  rewrite length_app, map_app; simpl.
  replace (length acc + 1)%nat with (S (length acc)) by lia.
  rewrite seq_S. reflexivity.
Qed.

(** One turn of the loop on the store does what [smooth_at] computes: it
    appends that entry, or raises what [smooth_at] raises and leaves the
    store as it was. *)
Lemma smooth_step_refines h r items ms k i acc :
  h !! r = Some (OList items) ->
  Forall2 (fun l m => h !! l = Some (OMood m)) items ms ->
  smooth_step r (length h) k i (store_after h acc)
  = match smooth_at ms k i with
    | Ok o => (Ok tt, store_after h (acc ++ [o]))
    | Raise e => (Raise e, store_after h acc)
    end.
Proof.
  intros Hr Hitems.
  assert (Hup : forall l (o : obj V), h !! l = Some o -> store_after h acc !! l = Some o).
  { intros l o Hl; unfold store_after; apply lookup_app_l_Some, Hl. }
  unfold smooth_step, smooth_at.
  erewrite st_bind_Ok; [|apply read_list_Ok, Hup, Hr].
  erewrite st_bind_Ok.
  2:{ apply (read_scores _ _ (window ms i k)), window_Forall2.
      eapply Forall2_impl; [exact Hitems|]. intros l m; apply Hup. }
  assert (Hlen : len (window items i k) = len (window ms i k)).
  { unfold len; f_equal.
    eapply Forall2_length, (window_Forall2 _ _ _ i k), Hitems. }
  rewrite Hlen.
  destruct (truediv _ _) as [s|e];
    [|erewrite st_bind_Raise; reflexivity].
  erewrite st_bind_Ok; [|reflexivity].
  pose proof (index_Forall2 _ _ _ i Hitems) as Hidx.
  destruct (index items i) as [ri|e];
    [|rewrite Hidx; erewrite st_bind_Raise; reflexivity].
  destruct Hidx as (m & -> & Hri).
  erewrite st_bind_Ok; [|reflexivity].
  erewrite st_bind_Ok; [|apply read_mood_Ok, Hup, Hri].
  erewrite st_bind_Ok; [|reflexivity].
  erewrite append_Ok.
  2:{ unfold store_after; rewrite <- app_assoc; simpl.
      apply list_lookup_middle; reflexivity. }
  rewrite store_after_snoc. reflexivity.
Qed.

Lemma smooth_loop_refines h r items ms k (indices : list Z) acc :
  h !! r = Some (OList items) ->
  Forall2 (fun l m => h !! l = Some (OMood m)) items ms ->
  match for_each (smooth_at ms k) indices with
  | Ok out =>
      exists units,
        st_for_each (smooth_step r (length h) k) indices (store_after h acc)
        = (Ok units, store_after h (acc ++ out))
  | Raise e =>
      exists done,
        st_for_each (smooth_step r (length h) k) indices (store_after h acc)
        = (Raise e, store_after h (acc ++ done))
  end.
Proof.
  intros Hr Hitems; revert acc.
  induction indices as [|i indices IH]; intros acc.
  - simpl. exists []. rewrite app_nil_r; reflexivity.
  - cbn [for_each st_for_each].
    pose proof (smooth_step_refines h r items ms k i acc Hr Hitems) as Hstep.
    destruct (smooth_at ms k i) as [o|e]; simpl.
    + erewrite st_bind_Ok; [|exact Hstep].
      specialize (IH (acc ++ [o])).
      destruct (for_each (smooth_at ms k) indices) as [out|e]; simpl.
      * destruct IH as [units IH]. exists (tt :: units).
        erewrite st_bind_Ok; [|exact IH].
        rewrite <- app_assoc; reflexivity.
      * destruct IH as [done IH]. exists (o :: done).
        erewrite st_bind_Raise; [|exact IH].
        rewrite <- app_assoc; reflexivity.
    + exists []. rewrite app_nil_r.
      erewrite st_bind_Raise; [|exact Hstep]. reflexivity.
Qed.

(** [smooth_moods] run on a store returns a new list holding the entries
    the function computes; the objects already in the store stay as they
    were and the new ones come after them. *)
Lemma smooth_moods_st_refines h r ms k :
  points_to_moods h r ms ->
  match smooth_moods ms k with
  | Ok out => smooth_moods_st r k h = (Ok (length h), store_after h out)
  | Raise e => exists done, smooth_moods_st r k h = (Raise e, store_after h done)
  end.
Proof.
  intros (items & Hr & Hitems).
  unfold smooth_moods_st, smooth_moods.
  assert (Hlen : len items = len ms).
  { unfold len; f_equal; eapply Forall2_length, Hitems. }
  pose proof (smooth_loop_refines h r items ms k (range (len ms)) [] Hr Hitems) as Hloop.
  assert (Hread : read_list r (store_after h []) = (Ok items, store_after h [])).
  { apply read_list_Ok; unfold store_after; apply lookup_app_l_Some, Hr. }
  destruct (for_each (smooth_at ms k) (range (len ms))) as [out|e].
  - destruct Hloop as [units Hloop].
    erewrite st_bind_Ok; [|reflexivity].
    erewrite st_bind_Ok; [|exact Hread].
    rewrite Hlen.
    erewrite st_bind_Ok; [|exact Hloop].
    reflexivity.
  - destruct Hloop as [done Hloop]. exists done.
    erewrite st_bind_Ok; [|reflexivity].
    erewrite st_bind_Ok; [|exact Hread].
    rewrite Hlen.
    erewrite st_bind_Raise; [|exact Hloop].
    reflexivity.
Qed.

Lemma points_to_store_after h r ms acc :
  points_to_moods h r ms -> points_to_moods (store_after h acc) r ms.
Proof.
  intros (items & Hr & Hitems). exists items; split.
  - unfold store_after; apply lookup_app_l_Some, Hr.
  - eapply Forall2_impl; [exact Hitems|].
    intros l m Hl; unfold store_after; apply lookup_app_l_Some, Hl.
Qed.

Lemma store_after_new_list h acc :
  points_to_moods (store_after h acc) (length h) acc.
Proof.
  exists (seq (S (length h)) (length acc)); split.
  - unfold store_after; apply list_lookup_middle; reflexivity.
  - apply Forall2_same_length_lookup_2; [rewrite length_seq; reflexivity|].
    intros i l m Hl Hm.
    apply lookup_seq in Hl as [-> Hi].
    unfold store_after.
    rewrite lookup_app_r by lia.
    replace (S (length h) + i - length h)%nat with (S i) by lia. simpl.
    change (map OMood acc) with (OMood <$> acc).
    rewrite list_lookup_fmap, Hm; reflexivity.
Qed.
End StoreFacts.

(** ** C9: smoothing leaves its input alone *)

(** C9: [smooth_moods] does not mutate its input.  Run on any store in which
    its argument is a list of entries, with any window size, it leaves every
    object of that store as it was (the store only grows), so the argument is
    still the same list of the same entries; when it returns, the result is a
    new list of new entries, those the function computes, and the entry at
    each index [i] has the label, date and note of the input entry at [i] and
    the mean over the window at [i] as its score.  When it raises, it raises
    what the function does. *)
Theorem smooth_moods_frame_C9 {V} (h : list (obj V)) (r : loc) (ms : list (Mood V)) (k : Z) :
  points_to_moods h r ms ->
  exists new : list (obj V),
    snd (smooth_moods_st r k h) = h ++ new
    /\ (forall l o, h !! l = Some o -> snd (smooth_moods_st r k h) !! l = Some o)
    /\ points_to_moods (snd (smooth_moods_st r k h)) r ms
    /\ match fst (smooth_moods_st r k h) with
       | Ok r' =>
           (length h <= r')%nat
           /\ exists out,
               smooth_moods ms k = Ok out
               /\ points_to_moods (snd (smooth_moods_st r k h)) r' out
               /\ length out = length ms
               /\ forall i m, ms !! i = Some m ->
                    exists o, out !! i = Some o
                      /\ type o = type m /\ date o = date m /\ notes o = notes m
                      /\ truediv (py_sum (map score (window ms (Z.of_nat i) k)))
                                 (Int (len (window ms (Z.of_nat i) k))) = Ok (score o)
       | Raise e => smooth_moods ms k = Raise e
       end.
Proof.
  intros Hpt.
  pose proof (smooth_moods_st_refines h r ms k Hpt) as Href.
  destruct (smooth_moods ms k) as [out|e] eqn:Hout.
  - rewrite Href; simpl.
    exists (OList (seq (S (length h)) (length out)) :: map OMood out).
    split; [reflexivity|].
    split; [intros l o Hl; unfold store_after; apply lookup_app_l_Some, Hl|].
    split; [apply points_to_store_after, Hpt|].
    split; [lia|].
    exists out. split; [reflexivity|].
    split; [apply store_after_new_list|].
    split.
    + apply for_each_length in Hout. rewrite Hout, length_range.
      unfold len; lia.
    + intros i m Hm. eapply smooth_moods_lookup; eassumption.
  - destruct Href as [done Href]. rewrite Href; simpl.
    exists (OList (seq (S (length h)) (length done)) :: map OMood done).
    split; [reflexivity|].
    split; [intros l o Hl; unfold store_after; apply lookup_app_l_Some, Hl|].
    split; [apply points_to_store_after, Hpt|reflexivity].
Qed.

Lemma smooth_moods_frame_C9_witness :
  exists new : list (obj string),
    snd (smooth_moods_st 3%nat 1 jan3_store) = jan3_store ++ new
    /\ points_to_moods (snd (smooth_moods_st 3%nat 1 jan3_store)) 3%nat jan3
    /\ fst (smooth_moods_st 3%nat 1 jan3_store) = Ok 4%nat.
Proof.
  assert (Hpt : points_to_moods jan3_store 3%nat jan3).
  { exists [0; 1; 2]%nat; split; [reflexivity|].
    repeat constructor. }
  destruct (smooth_moods_frame_C9 jan3_store 3%nat jan3 1 Hpt)
    as (new & Hnew & _ & Hsame & _).
  exists new. split; [exact Hnew|]. split; [exact Hsame|]. reflexivity.
Defined.

Example longest_notes_example :
  map notes (plot_top_longest_notes jan3 2) = ["ccc"; "bb"]%string.
Proof. reflexivity. Qed.

(** * Further properties *)

(** ** Means *)






Lemma len_map {A B} (f : A -> B) (l : list A) : len (map f l) = len l.
Proof. unfold len; rewrite length_map; reflexivity. Qed.


Lemma window_map {A B} (f : A -> B) (l : list A) i k :
  window (map f l) i k = map f (window l i k).
Proof.
  unfold window, slice, len. rewrite length_map.
  rewrite <- firstn_map, <- skipn_map. reflexivity.
Qed.





Lemma for_each_agree {A B C} (f : A -> result B) (g : A -> result C) (h : B -> C) l :
  (forall x, In x l -> g x = match f x with Ok y => Ok (h y) | Raise e => Raise e end) ->
  for_each g l = match for_each f l with Ok ys => Ok (map h ys) | Raise e => Raise e end.
Proof.
  induction l as [|x xs IH]; intros H; [reflexivity|].
  cbn [for_each]. rewrite (H x (or_introl eq_refl)).
  destruct (f x) as [y|e]; simpl; [|reflexivity].
  rewrite IH by (intros x' Hx'; apply H; right; exact Hx').
  destruct (for_each f xs); reflexivity.
Qed.



(** X4: [smooth_moods] is [smooth_ints] on the scores.  For entries with
    integer scores, smoothing the list of scores with [smooth_ints] gives
    the scores of the smoothed entries, and raises when [smooth_moods]
    raises. *)
Theorem smooth_moods_as_smooth_ints {V} (moods : list (Mood V)) (ints : list Z) (k : Z) :
  map score moods = map Int ints ->
  smooth_ints ints k
  = match smooth_moods moods k with
    | Ok out => Ok (map score out)
    | Raise e => Raise e
    end.
Proof.
  intros Hs.
  assert (Hlen : len ints = len moods).
  { rewrite <- (len_map Int ints), <- Hs; apply len_map. }
  unfold smooth_ints, smooth_moods. rewrite Hlen.
  apply for_each_agree. intros i Hi; apply in_range in Hi.
  unfold smooth_at.
  rewrite <- (len_map Int (window ints i k)), <- window_map, <- Hs, window_map, len_map.
  destruct (truediv _ _) as [s|e]; simpl; [|reflexivity].
  destruct (index_range moods i Hi) as (m & -> & _); reflexivity.
Qed.

Lemma smooth_moods_as_smooth_ints_witness :
  smooth_ints [1; 5; 3] 1 = Ok [Float 1; Float 3; Float 4].
Proof. exact (smooth_moods_as_smooth_ints jan3 [1; 5; 3] 1 eq_refl). Defined.

Lemma smooth_note_len_agree (entries : list (Mood string)) (k : Z) :
  smooth_ints (map note_len entries) k
  = match smooth_note_len entries k with
    | Ok out => Ok (map snd out)
    | Raise e => Raise e
    end.
Proof.
  unfold smooth_ints, smooth_note_len. rewrite len_map.
  apply for_each_agree. intros i Hi; apply in_range in Hi.
  cbv beta zeta.
  rewrite window_map, len_map, map_map.
  change (fun x => Int (note_len x)) with (fun m : Mood string => Int (str_len (notes m))).
  destruct (truediv _ _) as [s|e]; simpl; [|reflexivity].
  destruct (index_range entries i Hi) as (m & -> & _); reflexivity.
Qed.

Lemma smooth_note_len_dates (entries : list (Mood string)) (k : Z) out :
  smooth_note_len entries k = Ok out -> map fst out = map date entries.
Proof.
  intros Hout.
  unfold smooth_note_len in Hout. apply for_each_Ok_inv in Hout.
  assert (Hgen : forall (n : nat) idx out',
             Forall2 (fun i (y : datetime * num) =>
                        (nl ← truediv (py_sum (map (fun m => Int (str_len (notes m)))
                                                    (window entries i k)))
                                      (Int (len (window entries i k)));
                         m ← index entries i; Ok (date m, nl)) = Ok y) idx out' ->
             idx = map Z.of_nat (seq n (length idx)) ->
             map fst out' = map date (take (length idx) (drop n entries))).
  { intros n idx out' H; revert n.
    induction H as [|i y idx out' Hy _ IH]; intros n Hidx; [reflexivity|].
    simpl in Hidx. injection Hidx as -> Hidx.
    destruct (truediv _ _) as [s|e]; simpl in Hy; [|discriminate].
    unfold index in Hy. destruct (Z.ltb_spec (Z.of_nat n) 0); [lia|].
    rewrite Nat2Z.id in Hy.
    destruct (entries !! n) as [m|] eqn:Hm; simpl in Hy; [|discriminate].
    injection Hy as <-.
    rewrite (drop_S _ _ _ Hm). simpl. f_equal.
    apply (IH (S n)), Hidx. }
  specialize (Hgen 0%nat (range (len entries)) out Hout).
  rewrite length_range in Hgen. unfold len in Hgen. rewrite Nat2Z.id in Hgen.
  rewrite Hgen; [|unfold range, len; rewrite Nat2Z.id; reflexivity].
  rewrite drop_0, firstn_all; reflexivity.
Qed.

(** X5: [smooth_note_len] is [smooth_ints] on the note lengths, paired with
    the dates.  When it returns, its second components are what
    [smooth_ints] gives on the list of note lengths and its first components
    are the dates of the entries, in order; when it raises, [smooth_ints]
    raises the same. *)
Theorem smooth_note_len_as_smooth_ints (entries : list (Mood string)) (k : Z) :
  match smooth_note_len entries k with
  | Ok out => smooth_ints (map note_len entries) k = Ok (map snd out)
              /\ map fst out = map date entries
  | Raise e => smooth_ints (map note_len entries) k = Raise e
  end.
Proof.
  pose proof (smooth_note_len_agree entries k) as Hagree.
  destruct (smooth_note_len entries k) as [out|e] eqn:Hout; [|exact Hagree].
  split; [exact Hagree|].
  apply (smooth_note_len_dates entries k), Hout.
Qed.



(** X7: away from the edges ([k <= i] and [i + k <= n], [k >= 1]) the
    window at [i] holds exactly [2k] elements: those at the indices [i - k]
    to [i + k - 1], so [k] before index [i], index [i] itself and [k - 1]
    after it; the element at [i + k] is not in it. *)
Theorem window_interior {A} (l : list A) (k i : Z) :
  1 <= k -> k <= i -> i + k <= len l ->
  len (window l i k) = 2 * k
  /\ (forall j, 0 <= j < 2 * k ->
        window l i k !! Z.to_nat j = l !! Z.to_nat (i - k + j))
  /\ window l i k !! Z.to_nat k = l !! Z.to_nat i
  /\ window l i k !! Z.to_nat (2 * k) = None.
Proof.
  intros Hk Hi Hn.
  assert (Hlen : len (window l i k) = 2 * k).
  { rewrite len_window by lia. unfold window_start, window_end; lia. }
  assert (Hlook : forall j, 0 <= j < 2 * k ->
            window l i k !! Z.to_nat j = l !! Z.to_nat (i - k + j)).
  { intros j Hj. rewrite window_lookup; [|lia|lia|unfold window_start, window_end; lia].
    f_equal. unfold window_start; lia. }
  split; [exact Hlen|]. split; [exact Hlook|]. split.
  - rewrite Hlook by lia. f_equal; lia.
  - apply lookup_ge_None. unfold len in Hlen. lia.
Qed.

Lemma window_interior_witness :
  len (window [10; 20; 30; 40; 50] 2 1) = 2 * 1
  /\ (forall j, 0 <= j < 2 * 1 ->
        window [10; 20; 30; 40; 50] 2 1 !! Z.to_nat j
        = [10; 20; 30; 40; 50] !! Z.to_nat (2 - 1 + j))
  /\ window [10; 20; 30; 40; 50] 2 1 !! Z.to_nat 1 = [10; 20; 30; 40; 50] !! Z.to_nat 2
  /\ window [10; 20; 30; 40; 50] 2 1 !! Z.to_nat (2 * 1) = None.
Proof.
  apply (window_interior [10; 20; 30; 40; 50] 1 2); [lia|lia|vm_compute; congruence].
Defined.



(** ** Records with missing or unknown keys *)

Lemma dict_get_fold_skip key k v items found :
  k <> key ->
  fold_left (fun found kv => if String.eqb (fst kv) key then snd kv else found)
            ((k, v) :: items) found
  = fold_left (fun found (kv : string * json) =>
                 if String.eqb (fst kv) key then snd kv else found) items found.
Proof.
  intros Hne; simpl. destruct (String.eqb_spec k key); [contradiction|reflexivity].
Qed.

Lemma dict_get_missing items key :
  ~ In key (map fst items) -> dict_get items key = JNull.
Proof.
  unfold dict_get. generalize JNull.
  induction items as [|[k v] items IH]; intros found Hnin; [reflexivity|].
  rewrite dict_get_fold_skip by (intros ->; apply Hnin; left; reflexivity).
  apply IH. intros Hin; apply Hnin; right; exact Hin.
Qed.

Lemma dict_get_insert_other before k v after key :
  k <> key -> dict_get (before ++ (k, v) :: after) key = dict_get (before ++ after) key.
Proof.
  intros Hne; unfold dict_get. rewrite !fold_left_app.
  apply dict_get_fold_skip, Hne.
Qed.

(** X8: records with missing keys.  Without a "date" key [from_dict] raises
    [TypeError], whatever else the record holds; with a date that parses,
    a missing "scores" key raises [TypeError] and an empty score list
    [IndexError]; missing "type" or "notes" keys raise nothing and leave
    [None] in the entry. *)
Theorem from_dict_missing_keys (items : list (string * json)) :
  (~ In "date"%string (map fst items) -> from_dict (JObj items) = Raise TypeError)
  /\ (forall dt, strptime (dict_get items "date") = Ok dt ->
        (~ In "scores"%string (map fst items) -> from_dict (JObj items) = Raise TypeError)
        /\ (dict_get items "scores" = JList [] -> from_dict (JObj items) = Raise IndexError))
  /\ (forall m, from_dict (JObj items) = Ok m ->
        (~ In "type"%string (map fst items) -> type m = JNull)
        /\ (~ In "notes"%string (map fst items) -> notes m = JNull)).
Proof.
  split; [|split].
  - intros Hd. unfold from_dict. rewrite (dict_get_missing _ _ Hd). reflexivity.
  - intros dt Hdt; split.
    + intros Hs. unfold from_dict. rewrite Hdt, (dict_get_missing _ _ Hs). reflexivity.
    + intros Hs. unfold from_dict. rewrite Hdt, Hs. reflexivity.
  - intros m Hm. unfold from_dict in Hm.
    destruct (strptime _) as [dt|e]; simpl in Hm; [|discriminate].
    destruct (subscript0 _) as [x|e]; simpl in Hm; [|discriminate].
    destruct (py_int x) as [z|e]; simpl in Hm; [|discriminate].
    injection Hm as <-; simpl. split; apply dict_get_missing.
Qed.

Lemma from_dict_missing_keys_witness :
  from_dict (JObj [("scores"%string, JList [JInt 1])]) = Raise TypeError.
Proof.
  apply (proj1 (from_dict_missing_keys [("scores"%string, JList [JInt 1])])).
  simpl; intros [H|[]]; discriminate.
Defined.

(** X9: [from_dict] reads four keys only.  A binding of any other key,
    wherever it stands in the record, does not change the result. *)
Theorem from_dict_ignores_other_keys (before after : list (string * json)) (k : string) (v : json) :
  k <> "type"%string -> k <> "date"%string -> k <> "scores"%string -> k <> "notes"%string ->
  from_dict (JObj (before ++ (k, v) :: after)) = from_dict (JObj (before ++ after)).
Proof.
  intros Ht Hd Hs Hn. unfold from_dict.
  rewrite !dict_get_insert_other by assumption. reflexivity.
Qed.

Lemma from_dict_ignores_other_keys_witness :
  from_dict (JObj tagged_record) = from_dict (JObj (good_record ++ [])).
Proof.
  apply (from_dict_ignores_other_keys good_record [] "mood_id" (JInt 7)); discriminate.
Defined.

(** ** Loading a batch *)

Lemma for_each_app {A B} (f : A -> result B) l1 l2 :
  for_each f (l1 ++ l2)
  = match for_each f l1 with
    | Ok ys1 => match for_each f l2 with
                | Ok ys2 => Ok (ys1 ++ ys2)
                | Raise e => Raise e
                end
    | Raise e => Raise e
    end.
Proof.
  induction l1 as [|x xs IH]; simpl.
  - destruct (for_each f l2); reflexivity.
  - destruct (f x) as [y|e]; simpl; [|reflexivity].
    rewrite IH. destruct (for_each f xs); simpl; [|reflexivity].
    destruct (for_each f l2); reflexivity.
Qed.

Lemma for_each_Forall2 {A B} (f : A -> result B) l out :
  Forall2 (fun x y => f x = Ok y) l out -> for_each f l = Ok out.
Proof.
  induction 1 as [|x y l out Hxy _ IH]; simpl; [reflexivity|].
  rewrite Hxy, IH; reflexivity.
Qed.

(** X10: loading a batch.  The batch loads exactly when every record
    parses, and then gives the entries of the records in their order;
    otherwise the exception raised is that of the first record that does not
    parse. *)
Theorem load_moods_spec (records : list json) :
  (forall moods, load_moods records = Ok moods
                 <-> Forall2 (fun r m => from_dict r = Ok m) records moods)
  /\ (forall before bad after good e,
        records = before ++ bad :: after ->
        load_moods before = Ok good -> from_dict bad = Raise e ->
        load_moods records = Raise e).
Proof.
  split.
  - intros moods; split; [apply for_each_Ok_inv|apply for_each_Forall2].
  - intros before bad after good e -> Hgood Hbad.
    unfold load_moods in *. rewrite for_each_app, Hgood.
    simpl. rewrite Hbad. reflexivity.
Qed.

Lemma load_moods_spec_witness :
  load_moods [JObj good_record; JObj slash_record; JNull] = Raise ValueError.
Proof.
  apply (proj2 (load_moods_spec [JObj good_record; JObj slash_record; JNull])
               [JObj good_record] (JObj slash_record) [JNull]
               [mkMood (JStr "Mood") (mkDate 2024 2 29) (Int 4) (JStr "fine")] ValueError);
    reflexivity.
Defined.

Lemma date_le_total a b : date_le a b = true \/ date_le b a = true.
Proof.
  unfold date_le.
  destruct (Z.ltb_spec (year a) (year b)), (Z.ltb_spec (year b) (year a)),
    (Z.eqb_spec (year a) (year b)), (Z.eqb_spec (year b) (year a)),
    (Z.ltb_spec (month a) (month b)), (Z.ltb_spec (month b) (month a)),
    (Z.eqb_spec (month a) (month b)), (Z.eqb_spec (month b) (month a)),
    (Z.leb_spec (day a) (day b)), (Z.leb_spec (day b) (day a)); simpl; auto; lia.
Qed.

Lemma date_le_spec a b :
  date_le a b = true <->
  year a < year b \/ (year a = year b /\ (month a < month b
                                          \/ (month a = month b /\ day a <= day b))).
Proof.
  unfold date_le.
  rewrite orb_true_iff, andb_true_iff, orb_true_iff, andb_true_iff.
  rewrite !Z.ltb_lt, !Z.eqb_eq, Z.leb_le. reflexivity.
Qed.

Lemma date_le_trans a b c : date_le a b = true -> date_le b c = true -> date_le a c = true.
Proof. rewrite !date_le_spec; lia. Qed.

Lemma date_le_antisym a b : date_le a b = true -> date_le b a = true -> a = b.
Proof.
  rewrite !date_le_spec; intros H1 H2.
  destruct a as [ya ma da], b as [yb mb db]; simpl in *.
  f_equal; lia.
Qed.

Section SortedMore.
Context {A K : Type} (before : K -> K -> bool) (key : A -> K).

Lemma sorted_id l :
  StronglySorted (fun a b => before (key a) (key b) = true) l -> sorted before key l = l.
Proof.
  induction 1 as [|x xs Hxs IH Hx]; [reflexivity|].
  cbn [sorted foldr]. fold (sorted before key xs). rewrite IH.
  destruct xs as [|y ys]; [reflexivity|].
  apply Forall_cons in Hx as [Hxy _]. simpl. rewrite Hxy. reflexivity.
Qed.
End SortedMore.

Lemma filter_bool_decide {A} (P : A -> Prop) `{!forall x, Decision (P x)} (l : list A) :
  List.filter (fun x => bool_decide (P x)) l = filter P l.
Proof.
  induction l as [|x xs IH]; [reflexivity|].
  rewrite filter_cons. simpl. rewrite IH.
  destruct (decide (P x)) as [Hp|Hp].
  - rewrite bool_decide_true by exact Hp; reflexivity.
  - rewrite bool_decide_false by exact Hp; reflexivity.
Qed.

Lemma sorted_stable_dec {A K} (before : K -> K -> bool) (key : A -> K)
      (P : A -> Prop) `{!forall x, Decision (P x)} (l : list A) :
  (forall a b, P a -> P b -> before (key a) (key b) = true) ->
  filter P (sorted before key l) = filter P l.
Proof.
  intros HP. rewrite <- !filter_bool_decide.
  apply sorted_stable.
  intros a b Ha Hb; apply HP; eapply bool_decide_eq_true_1; eassumption.
Qed.

(** X11: the sort by date rearranges the entries into date order and is
    stable: the entries of one date keep the order they had.  A journal
    already in date order is left as it is, so sorting twice is sorting
    once. *)
Theorem sort_moods_spec {V} (moods : list (Mood V)) :
  sort_moods moods ≡ₚ moods
  /\ StronglySorted (fun a b => date_le (date a) (date b) = true) (sort_moods moods)
  /\ (forall dt, filter (fun m => date m = dt) (sort_moods moods)
                 = filter (fun m => date m = dt) moods)
  /\ (StronglySorted (fun a b => date_le (date a) (date b) = true) moods ->
      sort_moods moods = moods)
  /\ sort_moods (sort_moods moods) = sort_moods moods.
Proof.
  assert (Hs : StronglySorted (fun a b => date_le (date a) (date b) = true)
                              (sort_moods moods)).
  { apply sorted_StronglySorted; [apply date_le_total|apply date_le_trans]. }
  split; [apply sorted_Permutation|].
  split; [exact Hs|].
  split.
  { intros dt. apply sorted_stable_dec.
    intros a b -> ->. destruct (date_le_total dt dt); assumption. }
  split; [apply sorted_id|apply sorted_id, Hs].
Qed.

Lemma sort_moods_spec_witness :
  sort_moods jan3 = jan3 /\ sort_moods february_first = two_months.
Proof.
  split; [|reflexivity].
  apply (proj1 (proj2 (proj2 (proj2 (sort_moods_spec jan3))))).
  repeat constructor.
Defined.

(** ** Groups of an ordered input *)

Section OrderedGroups.
Context {A K : Type} `{EqDecision K} (key : A -> K) (lt : K -> K -> Prop).
Hypothesis lt_irrefl : forall a, ~ lt a a.
Hypothesis lt_trans : forall a b c, lt a b -> lt b c -> lt a c.

Lemma group_add_app_notin (k : K) (x : A) gs rest :
  ~ In k (map fst gs) -> group_add k x (gs ++ rest) = gs ++ group_add k x rest.
Proof.
  induction gs as [|[k' g] gs IH]; simpl; intros Hnin; [reflexivity|].
  destruct (decide (k = k')) as [->|Hne]; [tauto|].
  f_equal; apply IH; tauto.
Qed.

Lemma sorted_keys_last (ks : list K) (k : K) :
  StronglySorted lt ks -> In k ks -> (forall k', In k' ks -> lt k' k \/ k' = k) ->
  exists ks', ks = ks' ++ [k] /\ ~ In k ks'.
Proof.
  intros Hs Hin Hmax.
  destruct (exists_last (l := ks)) as (ks' & z & ->); [intros ->; destruct Hin|].
  apply StronglySorted_app in Hs as (Hlt & Hs' & _).
  assert (Hz : z = k).
  { apply in_app_or in Hin as [Hin|[->|[]]]; [|reflexivity].
    exfalso.
    assert (Hkz : lt k z).
    { apply Hlt; [apply list_elem_of_In, Hin|apply list_elem_of_singleton; reflexivity]. }
    destruct (Hmax z) as [Hzk| ->]; [apply in_or_app; right; left; reflexivity| |].
    - exact (lt_irrefl _ (lt_trans _ _ _ Hkz Hzk)).
    - exact (lt_irrefl _ Hkz). }
  subst z. exists ks'; split; [reflexivity|].
  intros Hin'. apply (lt_irrefl k), Hlt;
    [apply list_elem_of_In, Hin'|apply list_elem_of_singleton; reflexivity].
Qed.

(** The groups of an input whose keys never decrease are its consecutive
    runs, in order. *)
Lemma group_by_ordered l :
  StronglySorted (fun a b => lt (key a) (key b) \/ key a = key b) l ->
  StronglySorted lt (map fst (group_by key l))
  /\ concat (map snd (group_by key l)) = l.
Proof.
  induction l as [|x l IH] using rev_ind; intros Hs.
  - split; [constructor|reflexivity].
  - apply StronglySorted_app in Hs as (Hlx & Hl & _).
    destruct (IH Hl) as [Hkeys Hcat]; clear IH.
    destruct (group_by_spec key l) as (_ & _ & Hdom).
    assert (Hmax : forall k', In k' (map fst (group_by key l)) -> lt k' (key x) \/ k' = key x).
    { intros k' Hk'. apply Hdom, in_map_iff in Hk' as (y & <- & Hy).
      apply Hlx; [apply list_elem_of_In, Hy|apply list_elem_of_singleton; reflexivity]. }
    rewrite group_by_snoc.
    destruct (decide (key x ∈ map fst (group_by key l))) as [Hin|Hnin].
    + apply list_elem_of_In in Hin.
      destruct (sorted_keys_last _ _ Hkeys Hin Hmax) as (ks' & Hks & Hnin').
      destruct (exists_last (l := group_by key l)) as (gs' & [k g] & Hgs).
      { intros E; rewrite E in Hin; destruct Hin. }
      rewrite Hgs in *. rewrite map_app in Hks; simpl in Hks.
      apply app_inj_tail in Hks as [Hks' ->].
      rewrite group_add_app_notin by (rewrite Hks'; exact Hnin').
      simpl. destruct (decide (key x = key x)) as [_|Hne]; [|congruence].
      split.
      * rewrite map_app in *; simpl in *. exact Hkeys.
      * rewrite map_app, concat_app in *; simpl in *.
        rewrite app_nil_r in *. rewrite <- Hcat, <- app_assoc. reflexivity.
    + assert (Hnin' : ~ In (key x) (map fst (group_by key l)))
        by (rewrite <- list_elem_of_In; exact Hnin).
      rewrite (group_add_new key _ _ _ Hnin').
      split.
      * rewrite map_app; simpl. apply StronglySorted_app; split; [|split].
        2: exact Hkeys. 2: repeat constructor.
        intros k1 k2 Hk1 Hk2. apply list_elem_of_singleton in Hk2; subst k2.
        apply list_elem_of_In in Hk1.
        destruct (Hmax k1 Hk1) as [Hlt| ->]; [exact Hlt|].
        exfalso; apply Hnin', Hk1.
      * rewrite map_app, concat_app; simpl. rewrite Hcat. reflexivity.
Qed.
End OrderedGroups.

Lemma month_lt_irrefl a : ~ month_lt a a.
Proof. unfold month_lt; lia. Qed.

Lemma month_lt_trans a b c : month_lt a b -> month_lt b c -> month_lt a c.
Proof. unfold month_lt; lia. Qed.

Lemma date_le_month a b :
  date_le a b = true -> month_lt (date_month a) (date_month b) \/ date_month a = date_month b.
Proof.
  rewrite date_le_spec; unfold month_lt, date_month; simpl.
  intros [H|[H1 [H|[H2 _]]]]; auto.
  right; congruence.
Qed.

(** X12: in a journal in date order (as after the sort) the month groups
    come out in calendar order, each month once, and they are consecutive
    runs: joined end to end they give the journal back. *)
Theorem month_groups_chronological {V} (moods : list (Mood V)) :
  StronglySorted (fun a b => date_le (date a) (date b) = true) moods ->
  StronglySorted month_lt (map fst (group_by month_key moods))
  /\ concat (map snd (group_by month_key moods)) = moods.
Proof.
  intros Hs.
  apply (group_by_ordered month_key month_lt month_lt_irrefl month_lt_trans).
  eapply StronglySorted_weaken; [|exact Hs].
  intros a b Hab. apply (date_le_month _ _ Hab).
Qed.

Lemma month_groups_chronological_witness :
  StronglySorted month_lt (map fst (group_by month_key two_months))
  /\ concat (map snd (group_by month_key two_months)) = two_months.
Proof.
  apply (month_groups_chronological two_months).
  repeat constructor.
Defined.

(** ** Tick labels *)

Lemma group_head_key {A K} `{EqDecision K} (key : A -> K) (l : list A) k g :
  In (k, g) (group_by key l) ->
  exists f rest, g = f :: rest /\ key f = k /\ g = filter (fun y => key y = k) l.
Proof.
  intros Hin.
  destruct (group_by_spec key l) as (_ & Hall & _).
  rewrite Forall_forall in Hall.
  pose proof (Hall (k, g) (proj2 (list_elem_of_In _ _) Hin)) as Hg; simpl in Hg.
  pose proof (group_by_nonempty key l k g Hin) as Hne.
  destruct g as [|f rest]; [congruence|].
  exists f, rest; split; [reflexivity|]. split; [|exact Hg].
  assert (Hf : f ∈ filter (fun y => key y = k) l) by (rewrite <- Hg; left).
  apply list_elem_of_filter in Hf as [Hf _]; exact Hf.
Qed.

(** X13: the tick labels.  [month_ticks] never raises; it gives one label
    per (year, month) met, in the order the months are first met, and the
    label of a month is the formatted first date of that month in the
    input.  For dates in date order the labels run in calendar order. *)
Theorem month_ticks_spec (strftime : datetime -> string) (dates : list datetime) :
  exists firsts : list datetime,
    month_ticks strftime dates = Ok (map strftime firsts)
    /\ map date_month firsts = map fst (group_by date_month dates)
    /\ NoDup (map date_month firsts)
    /\ Forall (fun f => head (filter (fun x => date_month x = date_month f) dates) = Some f)
              firsts
    /\ (forall x, In x dates -> In (date_month x) (map date_month firsts))
    /\ (StronglySorted (fun a b => date_le a b = true) dates ->
        StronglySorted month_lt (map date_month firsts)).
Proof.
  set (first_of := fun x : (Z * Z) * list datetime => hd (mkDate 0 0 0) (snd x)).
  exists (map first_of (group_by date_month dates)).
  destruct (group_by_spec date_month dates) as (Hnd & _ & Hdom).
  assert (Hkeys : map date_month (map first_of (group_by date_month dates))
                  = map fst (group_by date_month dates)).
  { rewrite map_map. apply map_ext_in. intros [k g] Hin.
    destruct (group_head_key _ _ _ _ Hin) as (f & rest & -> & Hf & _). exact Hf. }
  split.
  { unfold month_ticks. rewrite map_map.
    apply for_each_Ok. apply Forall_forall. intros [k g] Hin.
    apply list_elem_of_In in Hin.
    destruct (group_head_key _ _ _ _ Hin) as (f & rest & -> & _ & _). reflexivity. }
  split; [exact Hkeys|].
  split; [rewrite Hkeys; exact Hnd|].
  split.
  { apply Forall_forall. intros f Hf.
    apply list_elem_of_In, in_map_iff in Hf as ([k g] & <- & Hin).
    destruct (group_head_key _ _ _ _ Hin) as (f & rest & Hg & Hf & Hfilter).
    subst g. unfold first_of; simpl. rewrite Hf, <- Hfilter. reflexivity. }
  split.
  { intros x Hx. rewrite Hkeys. apply Hdom, in_map, Hx. }
  intros Hs. rewrite Hkeys.
  apply (group_by_ordered date_month month_lt month_lt_irrefl month_lt_trans).
  eapply StronglySorted_weaken; [|exact Hs].
  intros a b Hab. apply (date_le_month _ _ Hab).
Qed.

Lemma month_ticks_spec_witness :
  exists firsts : list datetime,
    month_ticks (fun _ => "tick"%string) (map date two_months)
    = Ok (map (fun _ => "tick"%string) firsts)
    /\ StronglySorted month_lt (map date_month firsts).
Proof.
  destruct (month_ticks_spec (fun _ => "tick"%string) (map date two_months))
    as (firsts & Hticks & _ & _ & _ & _ & Hsorted).
  exists firsts; split; [exact Hticks|].
  apply Hsorted. repeat constructor.
Defined.



(** ** More on the rankings *)





Lemma filter_take_prefix {A} (P : A -> Prop) `{!forall x, Decision (P x)} (n : nat) (l : list A) :
  filter P (take n l) `prefix_of` filter P l.
Proof.
  exists (filter P (drop n l)). rewrite <- filter_app, take_drop. reflexivity.
Qed.

(** X16: ties keep the order of the input.  Among the entries returned by
    [plot_top_longest_notes], those of one note length are the first ones of
    that length in the input, in input order; the monthly means are listed
    in the order the months are first met, and among the months returned by
    [plot_top_moods] or [plot_worst_moods] those of one mean are the first
    ones of that mean in that order. *)
Theorem rankings_keep_ties {V} (moods : list (Mood V)) (entries : list (Mood string)) (n : Z) :
  (forall c, filter (fun m => note_len m = c) (plot_top_longest_notes entries n)
             `prefix_of` filter (fun m => note_len m = c) entries)
  /\ (forall means, monthly_means moods = Ok means ->
        map fst means = map fst (group_by month_key moods)
        /\ forall q : Q,
            (forall top, plot_top_moods moods n = Ok top ->
               filter (fun r => (num_val (snd r) == q)%Q) top
               `prefix_of` filter (fun r => (num_val (snd r) == q)%Q) means)
            /\ (forall worst, plot_worst_moods moods n = Ok worst ->
               filter (fun r => (num_val (snd r) == q)%Q) worst
               `prefix_of` filter (fun r => (num_val (snd r) == q)%Q) means)).
Proof.
  split.
  - intros c. unfold plot_top_longest_notes, seq_take.
    rewrite <- (sorted_stable_dec Z.geb note_len (fun m => note_len m = c) entries).
    + apply filter_take_prefix.
    + intros a b -> ->. apply Z.geb_le; lia.
  - intros means Hm. split.
    { destruct (monthly_means_total moods) as (means' & Hm' & Hrel).
      rewrite Hm in Hm'; injection Hm' as <-.
      clear Hm. induction Hrel as [|kg r gs rs [Hk _] _ IH]; [reflexivity|].
      simpl; rewrite Hk, IH; reflexivity. }
    intros q; split.
    + intros top Htop. unfold plot_top_moods in Htop. rewrite Hm in Htop.
      injection Htop as <-. unfold seq_take.
      rewrite <- (sorted_stable_dec num_ge snd (fun r => (num_val (snd r) == q)%Q) means).
      * apply filter_take_prefix.
      * intros a b Ha Hb. apply Qle_bool_iff. rewrite Ha, Hb. apply Qle_refl.
    + intros worst Hw. unfold plot_worst_moods in Hw. rewrite Hm in Hw.
      injection Hw as <-. unfold seq_take.
      rewrite <- (sorted_stable_dec num_le snd (fun r => (num_val (snd r) == q)%Q) means).
      * apply filter_take_prefix.
      * intros a b Ha Hb. apply Qle_bool_iff. rewrite Ha, Hb. apply Qle_refl.
Qed.

Lemma rankings_keep_ties_witness :
  map fst [((2024, 1), Float 3); ((2024, 2), Float 2)]
  = map fst (group_by month_key two_months).
Proof.
  apply (proj2 (rankings_keep_ties two_months [] 5)
               [((2024, 1), Float 3); ((2024, 2), Float 2)]).
  reflexivity.
Defined.



(** ** More on the keyword count *)




Lemma size_lower_words (words : gset string) : (size (lower_words words) <= size words)%nat.
Proof.
  unfold size, set_size; simpl.
  rewrite <- (length_map lower (elements words)).
  apply submseteq_length, NoDup_submseteq; [apply NoDup_elements|].
  intros w Hw. apply elem_of_elements in Hw. unfold lower_words in Hw.
  apply elem_of_map in Hw as (w0 & -> & Hw0).
  apply list_elem_of_In, in_map, list_elem_of_In, elem_of_elements, Hw0.
Qed.

Lemma contains_empty s : contains s EmptyString = true.
Proof. apply contains_spec. exists EmptyString, s. reflexivity. Qed.

(** X18: bounds of the keyword count.  The count of an entry is between 0
    and the number of target words; the empty word occurs in every note, so
    with it among the target words every count is at least 1; and more
    target words never give a smaller count. *)
Theorem keyword_count_bounds (words words' : gset string) (note : string) :
  0 <= count_words (lower_words words) note <= Z.of_nat (size words)
  /\ (""%string ∈ words -> 1 <= count_words (lower_words words) note)
  /\ (words ⊆ words' ->
      count_words (lower_words words) note <= count_words (lower_words words') note).
Proof.
  split; [|split].
  - unfold count_words, len. split; [lia|].
    pose proof (length_filter (fun w => contains (lower note) w = true)
                              (elements (lower_words words))) as H1.
    pose proof (size_lower_words words) as H2.
    unfold size, set_size in H2; simpl in H2. unfold size, set_size; simpl. lia.
  - intros Hin. unfold count_words, len.
    assert (Hf : ""%string ∈ filter (fun w => contains (lower note) w = true)
                                   (elements (lower_words words))).
    { apply list_elem_of_filter; split; [apply contains_empty|].
      apply elem_of_elements. unfold lower_words. apply elem_of_map.
      exists ""%string; auto. }
    destruct (filter _ _); [inversion Hf|simpl; lia].
  - intros Hsub. unfold count_words, len.
    apply inj_le, submseteq_length, NoDup_submseteq.
    + apply NoDup_filter, NoDup_elements.
    + intros w Hw. apply list_elem_of_filter in Hw as [Hc Hw].
      apply list_elem_of_filter; split; [exact Hc|].
      apply elem_of_elements. apply elem_of_elements in Hw.
      unfold lower_words in *. apply elem_of_map in Hw as (w0 & -> & Hw0).
      apply elem_of_map. exists w0; split; [reflexivity|apply Hsub, Hw0].
Qed.

Lemma keyword_count_bounds_witness :
  1 <= count_words (lower_words {[ ""%string ]}) "no keyword here".
Proof.
  apply (proj1 (proj2 (keyword_count_bounds {[ ""%string ]} ∅ "no keyword here"))).
  apply elem_of_singleton; reflexivity.
Defined.

